(** * behavior_event: enumerated fields, the entity base class and the
      connection factory

    A shallow embedding of [behavior_event/model.py] and
    [behavior_event/database.py].  Python values are a small tagged type,
    exceptions are an explicit result type, the instance dictionaries
    [_data] and [_dirty] are finite maps and sets, and the wall clock and
    the database are threaded through as explicit state. *)

From stdpp Require Import base option list strings pretty gmap.
From Stdlib Require Import ZArith Lia.

Local Open Scope string_scope.
Local Open Scope Z_scope.

(** ** Python values *)

(** A member of an [Enum] class: the class it belongs to, its (canonical)
    name and its value. *)
Record member := Member {
  m_class : string;
  m_name : string;
  m_value : Z
}.

(** A [decimal.Decimal]: the number [d_coeff * 10 ^ d_exp]. *)
Record decimal := Decimal {
  d_coeff : Z;
  d_exp : Z
}.

Inductive value :=
  | VNone
  | VInt (n : Z)
  | VText (s : string)
  | VDecimal (d : decimal)
  | VDateTime (t : Z)
  | VDate (d : Z)
  | VMember (m : member).

#[global] Instance member_eq_dec : EqDecision member.
Proof. solve_decision. Defined.
#[global] Instance decimal_eq_dec : EqDecision decimal.
Proof. solve_decision. Defined.
#[global] Instance value_eq_dec : EqDecision value.
Proof. solve_decision. Defined.

(** ** Exceptions *)

Inductive exn :=
  | KeyError (key : string)
  | IntegrityError (what : string)
  | DataError (what : string)
  | DoesNotExist
  | OperationalError (what : string).

Inductive result (A : Type) :=
  | Ok (a : A)
  | Raise (e : exn).
Arguments Ok {A} a.
Arguments Raise {A} e.

#[global] Instance result_ret : MRet result := fun _ a => Ok a.
#[global] Instance result_bind : MBind result := fun _ _ k r =>
  match r with
  | Ok a => k a
  | Raise e => Raise e
  end.

(** ** Enum classes

    The body of an [Enum] subclass is an ordered list of [NAME = code]
    assignments.  The order matters: a name whose code was already given
    to an earlier name does not create a member of its own, it becomes an
    alias of the earlier member. *)

Record enum_class := EnumClass {
  enum_name : string;
  enum_body : list (string * Z)
}.

Definition enum_names (cls : enum_class) : list string := (enum_body cls).*1.

(** The code assigned to [name] in a class body. *)
Fixpoint declared_code (body : list (string * Z)) (name : string) : option Z :=
  match body with
  | [] => None
  | (n, c) :: rest => if decide (n = name) then Some c else declared_code rest name
  end.

(** The first name of the body that was assigned [code]: the name of the
    member with that value. *)
Fixpoint canonical_name (body : list (string * Z)) (code : Z) : option string :=
  match body with
  | [] => None
  | (n, c) :: rest => if decide (c = code) then Some n else canonical_name rest code
  end.

(** [cls._member_map_]: every declared name, aliases included, mapped to
    its member. *)
Definition member_map (cls : enum_class) (name : string) : option member :=
  c ← declared_code (enum_body cls) name;
  n ← canonical_name (enum_body cls) c;
  Some (Member (enum_name cls) n c).

(** [cls[name]] *)
Definition enum_getitem (cls : enum_class) (name : string) : result member :=
  match member_map cls name with
  | Some m => Ok m
  | None => Raise (KeyError name)
  end.

(** [cls.__members__] without the aliases, in definition order. *)
Definition enum_members (cls : enum_class) : list member :=
  omap (fun '(n, c) =>
          if decide (canonical_name (enum_body cls) c = Some n)
          then Some (Member (enum_name cls) n c) else None)
       (enum_body cls).

(** The enum fields of [model.py]. *)

Definition ClientTypeField : enum_class :=
  EnumClass "ClientTypeField"
    [ ("FINANCIAL_INSTITUTION", 10);
      ("INBOUND_DATA_PARTNER", 20);
      ("OUTBOUND_BEHAVIOR_POINT_ENGINE", 30);
      ("DATA_WAREHOUSE_STAGING", 40) ].

Definition StatusField : enum_class :=
  EnumClass "StatusField"
    [ ("PENDING", 10);
      ("ACTIVE", 20);
      ("DISABLED", 30) ].

Definition EventFrequencyField : enum_class :=
  EnumClass "EventFrequencyField"
    [ ("EVERY_MINUTE", 5);
      ("HOURLY", 10);
      ("DAILY", 20);
      ("WEEKLY", 30);
      ("MONTHLY", 40);
      ("QUARTERLY", 50);
      ("YEARLY", 60) ].

Definition BehaviorTypeField : enum_class :=
  EnumClass "BehaviorTypeField"
    [ ("MINIMUM_ACCOUNT_BALANCE", 10);
      ("MAINTAIN_ACCOUNT_BALANCE", 10);
      ("ADOPT_E_STATEMENT", 30);
      ("OPEN_SAFE_DEPOSIT_BOX", 40) ].

Definition AccountTypeField : enum_class :=
  EnumClass "AccountTypeField"
    [ ("ALL", 1);
      ("INTERNAL", 10);
      ("CHECKING", 20);
      ("CREDIT_CARD", 30);
      ("SAVING", 40);
      ("MONEY_MARKET", 50);
      ("MORTGAGE", 60);
      ("LOAN", 70);
      ("BUSINESS_LOAN", 70);
      ("PERSONAL_LOAN", 70) ].

Definition DestinationSystemField : enum_class :=
  EnumClass "DestinationSystemField"
    [ ("DATA_WAREHOUSE_STAGING", 10);
      ("BEHAVIOR_POINT_ENGINE", 20) ].

Definition BatchStatusField : enum_class :=
  EnumClass "BatchStatusField"
    [ ("NEW", 10);
      ("PENDING", 10);
      ("STARTED", 20);
      ("DELIVERED", 30);
      ("SUCCESS", 40);
      ("PARTIAL_FAILURE", 50);
      ("FAILURE", 60) ].

Definition enum_fields : list enum_class :=
  [ ClientTypeField; StatusField; EventFrequencyField; BehaviorTypeField;
    AccountTypeField; DestinationSystemField; BatchStatusField ].

(** Python's [str()] on values that are not text: [None], the digits of an
    integer, [Class.NAME] for an enum member ([Enum.__str__]).  Decimals
    and dates are rendered in the notation of this model (coefficient and
    exponent, clock reading); nothing below depends on their rendering. *)
Definition py_str (v : value) : string :=
  match v with
  | VNone => "None"
  | VInt n => pretty n
  | VText s => s
  | VDecimal d => pretty (d_coeff d) +:+ "E" +:+ pretty (d_exp d)
  | VDateTime t => pretty t
  | VDate d => pretty d
  | VMember m => m_class m +:+ "." +:+ m_name m
  end.

(** Modelled from the spec: [coerce_to_unicode] is used by [EnumField] but
    defined nowhere in the repository's sources.  The stored
    representation of a symbolic name is "the name itself as text": text
    is returned as it is and a member as its name; a value that is
    neither is rendered by [str()]. *)
Definition coerce_to_unicode (v : value) : string :=
  match v with
  | VText s => s
  | VMember m => m_name m
  | _ => py_str v
  end.

(** ** [EnumField] *)

(** [EnumField.db_value] *)
Definition db_value (v : value) : value :=
  match v with
  | VNone => VNone
  | _ => VText (coerce_to_unicode v)
  end.

(** [EnumField.python_value], a class method. *)
Definition python_value (cls : enum_class) (v : value) : result value :=
  match v with
  | VNone => Ok VNone
  | _ => m ← enum_getitem cls (coerce_to_unicode v); Ok (VMember m)
  end.

(** ** Fixed-point values *)

(** [n / d] rounded to the nearest integer, ties to the even one
    ([decimal.ROUND_HALF_EVEN], the default context's rounding), for
    [0 < d]. *)
Definition round_half_even (n d : Z) : Z :=
  let q := n / d in
  let r := n mod d in
  if 2 * r <? d then q
  else if d <? 2 * r then q + 1
  else if Z.even q then q else q + 1.

(** Modelled from the spec: the fixed-point column type ([DecimalField]
    with [auto_round]) is the ORM's, not the repository's.  A fixed-point
    field is "stored rounded to its declared decimal precision":
    [quantize places x] is [x] rounded to [places] decimal places. *)
Definition quantize (places : Z) (x : decimal) : decimal :=
  let e := - places in
  if e <=? d_exp x
  then Decimal (d_coeff x * 10 ^ (d_exp x - e)) e
  else Decimal (round_half_even (d_coeff x) (10 ^ (e - d_exp x))) e.


(** ** Field and table declarations *)

Inductive field_type :=
  | IntegerField
  | CharField
  | TextField
  | DateTimeField
  | DateField
  | DecimalField (max_digits decimal_places : Z) (auto_round : bool)
  | ForeignKeyField (rel_table to_field : string)
  | EnumField (cls : enum_class).

(** [default=...]: a plain value, or the callable [DT.now]. *)
Inductive default_spec :=
  | DefaultValue (v : value)
  | DefaultNow.

Record field := Field {
  f_name : string;
  f_type : field_type;
  f_null : bool;
  f_unique : bool;
  f_default : option default_spec
}.

(** A model class: its table, the column and the sequence of its
    primary key [id], and its other fields in declaration order. *)
Record model := Model {
  db_table : string;
  pk_column : string;
  pk_sequence : string;
  fields : list field
}.

(** [BaseModel.Meta] *)
Definition schema : string := "behavior".
Definition only_save_dirty : bool := true.

(** The two timestamp fields every model declares. *)
Definition inserted_field : field :=
  Field "inserted" DateTimeField false false (Some DefaultNow).
Definition updated_field : field :=
  Field "updated" DateTimeField false false (Some DefaultNow).

Definition Client : model :=
  Model "clients" "client_id" "client_id_seq"
    [ Field "title" CharField false true None;
      Field "type" (EnumField ClientTypeField) false false None;
      Field "status" (EnumField StatusField) false false
            (Some (DefaultValue (VText "PENDING")));
      inserted_field;
      updated_field ].

Definition EventType : model :=
  Model "event_types" "event_type_id" "event_type_id_seq"
    [ Field "title" CharField false true None;
      Field "description" CharField false false None;
      Field "behavior_type" (EnumField BehaviorTypeField) false false None;
      Field "frequency" (EnumField EventFrequencyField) false false None;
      Field "stubbed_extract_script" TextField false false None;
      inserted_field;
      updated_field ].

Definition ClientConfig : model :=
  Model "client_configs" "client_config_id" "client_config_id_seq"
    [ Field "client_id" (ForeignKeyField "clients" "client_id") false false None;
      Field "event_type_id" (ForeignKeyField "event_types" "event_type_id")
            false false None;
      Field "effective_date" DateField false false None;
      Field "expiration_date" DateField true false None;
      Field "status" (EnumField StatusField) false false
            (Some (DefaultValue (VText "PENDING")));
      Field "account_type" (EnumField AccountTypeField) false false None;
      Field "product_code" CharField true false None;
      Field "balance_floor" (DecimalField 15 4 true) true false None;
      inserted_field;
      updated_field ].

Definition Destination : model :=
  Model "destinations" "destination_id" "destination_id_seq"
    [ Field "destination_system" (EnumField DestinationSystemField)
            false false None;
      inserted_field;
      updated_field ].

Definition DestinationConfig : model :=
  Model "destination_configs" "destination_config_id"
        "destination_config_id_seq"
    [ Field "destination_id" (ForeignKeyField "destinations" "destination_id")
            false false None;
      Field "key" CharField true false None;
      Field "value" CharField true false None;
      inserted_field;
      updated_field ].

Definition EventBatch : model :=
  Model "batches" "event_batch_id" "event_batch_id_seq"
    [ Field "client_config_id"
            (ForeignKeyField "client_configs" "client_config_id")
            false false None;
      Field "status" (EnumField BatchStatusField) false false None;
      Field "delivery_system_event_batch_id" IntegerField true false None;
      inserted_field;
      updated_field ].

Definition EventBatchDelivery : model :=
  Model "event_batch_deliveries" "event_batch_delivery_id"
        "event_batch_delivery_id_seq"
    [ Field "event_batch_id" (ForeignKeyField "batches" "event_batch_id")
            false false None;
      Field "status" (EnumField BatchStatusField) false false None;
      Field "status_message" TextField false false None;
      inserted_field;
      updated_field ].

Definition Event : model :=
  Model "events" "event_id" "event_id_seq"
    [ Field "event_batch_id" (ForeignKeyField "batches" "event_batch_id")
            false false None;
      Field "quantity" (DecimalField 12 4 true) false false None;
      Field "event_timestamp" DateTimeField false false None;
      inserted_field;
      updated_field ].

Definition EventBatchDeliveryErrorEvent : model :=
  Model "event_batch_delivery_error_events"
        "event_batch_delivery_error_event_id"
        "event_batch_delivery_error_event_id_seq"
    [ Field "event_batch_delivery_id"
            (ForeignKeyField "event_batch_deliveries" "event_batch_delivery_id")
            false false None;
      Field "event_id" (ForeignKeyField "events" "event_id") false false None;
      inserted_field;
      updated_field ].

Definition models : list model :=
  [ Client; EventType; ClientConfig; Destination; DestinationConfig;
    EventBatch; EventBatchDelivery; Event; EventBatchDeliveryErrorEvent ].

(** ** The world: wall clock and database

    [DT.now()] reads the wall clock; the [n]-th reading of a run is
    [clock w n].  A table maps primary keys to rows, a row maps the name
    of a field to the value stored in its column (absent means NULL).
    [queries] is the log of the statements sent to the database, most
    recent first. *)

Inductive query :=
  | Insert (table : string) (pk : Z) (columns : gmap string value)
  | Update (table : string) (pk : Z) (assignments : gmap string value).

Record world := World {
  clock : nat -> Z;
  ticks : nat;
  tables : gmap string (gmap Z (gmap string value));
  sequences : gmap string Z;
  queries : list query
}.

(** [DT.now()] *)
Definition DT_now (w : world) : Z * world :=
  (clock w (ticks w),
   World (clock w) (S (ticks w)) (tables w) (sequences w) (queries w)).

Definition table_in (tbls : gmap string (gmap Z (gmap string value)))
    (name : string) : gmap Z (gmap string value) :=
  default ∅ (tbls !! name).

Definition table_of (w : world) (name : string) : gmap Z (gmap string value) :=
  table_in (tables w) name.


Definition log_query (q : query) (w : world) : world :=
  World (clock w) (ticks w) (tables w) (sequences w) (q :: queries w).

Definition store_row (table : string) (pk : Z) (r : gmap string value)
    (w : world) : world :=
  World (clock w) (ticks w)
        (<[table := <[pk := r]> (table_of w table)]> (tables w))
        (sequences w) (queries w).

(** [nextval(seq)]: sequences start at 1 and never go back, also when the
    statement that drew the value fails. *)
Definition nextval (seq : string) (w : world) : Z * world :=
  let k := default 1 (sequences w !! seq) in
  (k, World (clock w) (ticks w) (tables w) (<[seq := k + 1]> (sequences w))
            (queries w)).

(** ** Conversions of the field types *)

Fixpoint get_field (fs : list field) (name : string) : option field :=
  match fs with
  | [] => None
  | f :: rest => if decide (f_name f = name) then Some f else get_field rest name
  end.

(** Modelled from the spec: the conversions of the ORM's own field types.
    An enum field converts with [EnumField.db_value]; a fixed-point field
    declared with [auto_round] rounds to its decimal places; every other
    field stores the value as it is given. *)
Definition field_db_value (t : field_type) (v : value) : value :=
  match t with
  | EnumField _ => db_value v
  | DecimalField _ places true =>
      match v with
      | VDecimal d => VDecimal (quantize places d)
      | _ => v
      end
  | _ => v
  end.

(** Modelled from the spec: on read an enum field converts with
    [EnumField.python_value], the other fields return what is stored. *)
Definition field_python_value (t : field_type) (v : value) : result value :=
  match t with
  | EnumField cls => python_value cls v
  | _ => Ok v
  end.

(** The columns of a statement: the entries of [field_dict] that belong
    to a field of the model, converted for storage. *)
Definition encode_row (m : model) (field_dict : gmap string value)
    : gmap string value :=
  map_imap (fun k v => (fun f => field_db_value (f_type f) v) <$> get_field (fields m) k)
           field_dict.

Fixpoint decode_row (fs : list field) (r : gmap string value)
    : result (gmap string value) :=
  match fs with
  | [] => Ok ∅
  | f :: rest =>
      v ← field_python_value (f_type f) (default VNone (r !! f_name f));
      d ← decode_row rest r;
      Ok (<[f_name f := v]> d)
  end.

(** ** The database's checks

    Modelled from the spec: "referential integrity enforced by the
    database", "[title] uniqueness enforced on Client and EventType", the
    not-null columns and the column types are the database's, which is
    not part of the repository. *)

(** What a column of the given type can hold, NULL apart. *)
Definition column_accepts (t : field_type) (v : value) : bool :=
  match t, v with
  | (IntegerField | ForeignKeyField _ _), VInt _ => true
  | (CharField | TextField | EnumField _), VText _ => true
  | DateTimeField, VDateTime _ => true
  | DateField, VDate _ => true
  | DecimalField digits places _, VDecimal d =>
      bool_decide (d_exp d = - places) && bool_decide (Z.abs (d_coeff d) < 10 ^ digits)
  | _, _ => false
  end.

(** Another row of the table already holds [v] in column [name]. *)
Definition taken (table : gmap Z (gmap string value)) (pk : Z)
    (name : string) (v : value) : Prop :=
  map_Exists (fun k r => k ≠ pk ∧ r !! name = Some v) table.

#[global] Instance taken_dec table pk name v : Decision (taken table pk name v).
Proof. unfold taken. apply _. Defined.

Definition check_field (tbls : gmap string (gmap Z (gmap string value)))
    (table : string) (pk : Z) (r : gmap string value) (f : field) : result () :=
  match default VNone (r !! f_name f) with
  | VNone =>
      if f_null f then Ok () else Raise (IntegrityError (f_name f))
  | v =>
      if negb (column_accepts (f_type f) v) then Raise (DataError (f_name f))
      else if f_unique f && bool_decide (taken (table_in tbls table) pk (f_name f) v)
      then Raise (IntegrityError (f_name f))
      else match f_type f, v with
           | ForeignKeyField rel _, VInt k =>
               if bool_decide (is_Some (table_in tbls rel !! k)) then Ok ()
               else Raise (IntegrityError (f_name f))
           | _, _ => Ok ()
           end
  end.

Fixpoint check_row (tbls : gmap string (gmap Z (gmap string value)))
    (table : string) (pk : Z) (r : gmap string value) (fs : list field)
    : result () :=
  match fs with
  | [] => Ok ()
  | f :: rest => _ ← check_field tbls table pk r f; check_row tbls table pk r rest
  end.

(** [INSERT]: the primary key is the given one or the next value of the
    sequence; a rejected statement leaves the tables as they were. *)
Definition db_insert (m : model) (field_dict : gmap string value) (w : world)
    : result Z * world :=
  let cols := encode_row m field_dict in
  match field_dict !! "id" with
  | Some (VInt _) | Some VNone | None =>
      let '(pk, w1) :=
        match field_dict !! "id" with
        | Some (VInt k) => (k, w)
        | _ => nextval (pk_sequence m) w
        end in
      let w2 := log_query (Insert (db_table m) pk cols) w1 in
      if bool_decide (is_Some (table_of w (db_table m) !! pk))
      then (Raise (IntegrityError (pk_column m)), w2)
      else match check_row (tables w) (db_table m) pk cols (fields m) with
           | Raise e => (Raise e, w2)
           | Ok _ => (Ok pk, store_row (db_table m) pk cols w2)
           end
  | Some _ => (Raise (DataError (pk_column m)), w)
  end.

(** [UPDATE ... WHERE pk]: returns the number of rows changed. *)
Definition db_update (m : model) (pk : Z) (field_dict : gmap string value)
    (w : world) : result Z * world :=
  let cols := encode_row m field_dict in
  let w1 := log_query (Update (db_table m) pk cols) w in
  match table_of w (db_table m) !! pk with
  | None => (Ok 0, w1)
  | Some old =>
      match check_row (tables w) (db_table m) pk (cols ∪ old) (fields m) with
      | Raise e => (Raise e, w1)
      | Ok _ => (Ok 1, store_row (db_table m) pk (cols ∪ old) w1)
      end
  end.

(** ** Model instances *)

(** An instance carries the dictionary of its field values and the set
    of the fields assigned since it was loaded or last saved. *)
Record instance := Instance {
  _data : gmap string value;
  _dirty : gset string
}.

(** [self.name = v] on a field. *)
Definition setattr (self : instance) (name : string) (v : value) : instance :=
  Instance (<[name := v]> (_data self)) ({[name]} ∪ _dirty self).

(** The defaults of the fields, callables called, in declaration order. *)
Fixpoint default_dict (fs : list field) (w : world) : gmap string value * world :=
  match fs with
  | [] => (∅, w)
  | f :: rest =>
      match f_default f with
      | None => default_dict rest w
      | Some (DefaultValue v) =>
          let '(d, w') := default_dict rest w in
          (<[f_name f := v]> d, w')
      | Some DefaultNow =>
          let '(t, w1) := DT_now w in
          let '(d, w') := default_dict rest w1 in
          (<[f_name f := VDateTime t]> d, w')
      end
  end.

(** Modelled from the spec: the ORM's constructor [Model], called with
    keyword arguments.
    Fields without an explicitly supplied value take their default. *)
Definition new (m : model) (kwargs : gmap string value) (w : world)
    : instance * world :=
  let '(d, w1) := default_dict (fields m) w in
  (Instance (kwargs ∪ d) (dom (kwargs ∪ d)), w1).

(** Modelled from the spec: the fields a save sends to the database.  With
    [only_save_dirty] these are the dirty fields, unless the insert is
    forced. *)
Definition save_dict (force_insert : bool) (self : instance)
    : gmap string value :=
  if only_save_dirty && negb force_insert
  then filter (fun kv => kv.1 ∈ _dirty self) (_data self)
  else _data self.

(** Modelled from the spec: [Model.save], the ORM's persist operation that
    [BaseModel.save] calls through [super()].  With [only_save_dirty] it
    "persists only the fields that have changed since the last load"; a
    record without primary key, or a forced insert, is inserted, any
    other is updated in place.  An error of the database propagates and
    leaves the instance as it is. *)
Definition Model_save (m : model) (force_insert : bool) (self : instance)
    (w : world) : result Z * instance * world :=
  let field_dict := save_dict force_insert self in
  match _data self !! "id", force_insert with
  | Some (VInt pk), false =>
      match db_update m pk field_dict w with
      | (Ok rows, w') => (Ok rows, Instance (_data self) ∅, w')
      | (Raise e, w') => (Raise e, self, w')
      end
  | _, _ =>
      match db_insert m field_dict w with
      | (Ok pk, w') =>
          (Ok 1, Instance (<["id" := VInt pk]> (_data self)) ∅, w')
      | (Raise e, w') => (Raise e, self, w')
      end
  end.

(** [BaseModel.save]: the instance is mutated in place, so the instance
    after the call is returned next to the outcome, also when the call
    raises. *)
Definition save (m : model) (force_insert : bool) (self : instance)
    (w : world) : result Z * instance * world :=
  let '(now, w1) := DT_now w in
  let self1 := setattr self "updated" (VDateTime now) in
  Model_save m force_insert self1 w1.

(** Modelled from the spec: [Model.create], "creating a record":
    construct the instance and save it with a forced insert. *)
Definition create (m : model) (kwargs : gmap string value) (w : world)
    : result instance * world :=
  let '(self, w1) := new m kwargs w in
  match save m true self w1 with
  | (Ok _, self', w2) => (Ok self', w2)
  | (Raise e, _, w2) => (Raise e, w2)
  end.

(** Modelled from the spec: [Model.get], "reloading it by its primary key". *)
Definition get (m : model) (pk : Z) (w : world) : result instance :=
  match table_of w (db_table m) !! pk with
  | None => Raise DoesNotExist
  | Some r =>
      d ← decode_row (fields m) r;
      Ok (Instance (<["id" := VInt pk]> d) ∅)
  end.

(** ** The connection factory *)

(** What [PostgresqlDatabase(...)] is called with and what it returns. *)
Record database := Database {
  db_name : value;
  connect_kwargs : gmap string value
}.

(** A computation that may construct database handles.  It has no way to
    inspect a failure of the constructor: an exception raised there ends
    the computation. *)
Inductive factory (A : Type) :=
  | Return (a : A)
  | Construct (name : value) (kwargs : gmap string value)
              (k : database -> factory A).
Arguments Return {A} a.
Arguments Construct {A} name kwargs k.

(** [get_db_connection] *)
Definition get_db_connection (db user passwd host port : value)
    (autocommit : bool) : factory database :=
  Construct db
    (<["user" := user]> (<["password" := passwd]>
      (<["host" := host]> (<["port" := port]> ∅))))
    (fun handle => Return handle).

(** Running a computation against a driver: the outcome, and the
    constructor calls made, in order. *)
Fixpoint run {A} (driver : value -> gmap string value -> result database)
    (c : factory A) : result A * list (value * gmap string value) :=
  match c with
  | Return a => (Ok a, [])
  | Construct name kwargs k =>
      match driver name kwargs with
      | Ok h => let '(r, calls) := run driver (k h) in (r, (name, kwargs) :: calls)
      | Raise e => (Raise e, [(name, kwargs)])
      end
  end.

(** The ORM's constructor: it keeps its arguments and connects later. *)
Definition PostgresqlDatabase (name : value) (kwargs : gmap string value)
    : result database :=
  Ok (Database name kwargs).

(** ** What a reload returns *)

(** The field types and values that are stored and read back unchanged. *)
Definition stored_as_given (t : field_type) (v : value) : Prop :=
  match t, v with
  | EnumField _, VNone => True
  | EnumField _, _ => False
  | DecimalField _ _ true, VDecimal _ => False
  | _, _ => True
  end.

(** [reloads_as t v v']: a field of type [t] written as [v] is read back
    as [v'].  A fixed-point value comes back rounded; the text of an enum
    field comes back as the member its name denotes, which carries the
    first name declared with the same code. *)
Inductive reloads_as : field_type -> value -> value -> Prop :=
  | reload_same t v :
      stored_as_given t v -> reloads_as t v v
  | reload_decimal digits places d :
      reloads_as (DecimalField digits places true)
                 (VDecimal d) (VDecimal (quantize places d))
  | reload_enum cls v (i : nat) n c :
      v <> VNone ->
      declared_code (enum_body cls) (coerce_to_unicode v) = Some c ->
      enum_body cls !! i = Some (n, c) ->
      (forall (j : nat) n' c',
         (j < i)%nat -> enum_body cls !! j = Some (n', c') -> c' <> c) ->
      reloads_as (EnumField cls) v (VMember (Member (enum_name cls) n c)).

(** "Equal to those written, up to declared fixed-point rounding", read
    generously: the same value, or the written decimal rounded to four
    places, or the enum member that carries the written name. *)
Definition equal_as_written (v v' : value) : Prop :=
  v' = v \/
  (exists d, v = VDecimal d /\ v' = VDecimal (quantize 4 d)) \/
  (exists n m, v = VText n /\ v' = VMember m /\ m_name m = n).


(** ** Sample data *)

(** An empty database under a clock that advances by one at each reading. *)
Definition world0 : world :=
  World (fun n => 100 + Z.of_nat n) 0 ∅ ∅ [].

Definition acme : gmap string value :=
  list_to_map [ ("title", VText "Acme Bank");
                ("type", VText "FINANCIAL_INSTITUTION") ].

Definition maintain_balance : gmap string value :=
  list_to_map [ ("title", VText "Maintain Balance");
                ("description", VText "Maintain a minimum balance");
                ("behavior_type", VText "MAINTAIN_ACCOUNT_BALANCE");
                ("frequency", VText "MONTHLY");
                ("stubbed_extract_script", VText "--") ].

(** An event of batch 7 with five decimals in its quantity. *)
Definition an_event : gmap string value :=
  list_to_map [ ("event_batch_id", VInt 7);
                ("quantity", VDecimal (Decimal 1234565 (-5)));
                ("event_timestamp", VDateTime 99) ].


(** The row of a client stamped at 102, and the record as loaded from it. *)
Definition acme_row : gmap string value :=
  list_to_map [ ("title", VText "Acme Bank");
                ("type", VText "FINANCIAL_INSTITUTION");
                ("status", VText "PENDING");
                ("inserted", VDateTime 100);
                ("updated", VDateTime 102) ].

Definition acme_loaded : instance :=
  Instance
    (list_to_map
       [ ("id", VInt 1);
         ("title", VText "Acme Bank");
         ("type", VMember (Member "ClientTypeField" "FINANCIAL_INSTITUTION" 10));
         ("status", VMember (Member "StatusField" "PENDING" 10));
         ("inserted", VDateTime 100);
         ("updated", VDateTime 102) ])
    ∅.

(** A world that holds that row and whose clock reads 50: the row was
    stamped by a host whose clock ran ahead, or before the local clock was
    set back. *)
Definition world_clock_behind : world :=
  World (fun _ => 50) 0 {[ "clients" := {[ 1 := acme_row ]} ]}
        {[ "client_id_seq" := 2 ]} [].

(** The same row under a clock that reads 200 from now on. *)
Definition world_later : world :=
  World (fun _ => 200) 0 {[ "clients" := {[ 1 := acme_row ]} ]}
        {[ "client_id_seq" := 2 ]} [].

(** A second record with the title of the stored client. *)
Definition acme_again : instance :=
  Instance acme (dom acme).

(** The instance a call returned, if it returned one. *)
Definition returned (r : result instance) : instance :=
  match r with
  | Ok self => self
  | Raise _ => Instance ∅ ∅
  end.

(** ** Invariants of the tables *)

(** No two rows of the table hold the same non-null value in the column. *)
Definition unique_column (tbl : gmap Z (gmap string value)) (name : string) : Prop :=
  ∀ k1 k2 r1 r2 v,
    tbl !! k1 = Some r1 → tbl !! k2 = Some r2 →
    r1 !! name = Some v → r2 !! name = Some v → v ≠ VNone → k1 = k2.

(** Every field declared [unique=True] is unique in its table. *)
Definition unique_ok (tbls : gmap string (gmap Z (gmap string value))) : Prop :=
  ∀ m f, m ∈ models → f ∈ fields m → f_unique f = true →
         unique_column (table_in tbls (db_table m)) (f_name f).

(** Every stored foreign key names a row of the table it refers to. *)
Definition references_ok (tbls : gmap string (gmap Z (gmap string value))) : Prop :=
  ∀ m f rel to pk r k,
    m ∈ models → f ∈ fields m → f_type f = ForeignKeyField rel to →
    table_in tbls (db_table m) !! pk = Some r →
    r !! f_name f = Some (VInt k) →
    is_Some (table_in tbls rel !! k).

(** ** More sample data *)

(** A client whose status is no declared name. *)
Definition acme_archived : gmap string value :=
  <["status" := VText "ARCHIVED"]> acme.

(** A second client. *)
Definition beta : gmap string value :=
  list_to_map [ ("title", VText "Beta Bank");
                ("type", VText "FINANCIAL_INSTITUTION") ].

(** A configuration of client 1 for event type 1. *)
Definition a_config : gmap string value :=
  list_to_map [ ("client_id", VInt 1);
                ("event_type_id", VInt 1);
                ("effective_date", VDate 19723);
                ("account_type", VText "CHECKING");
                ("balance_floor", VDecimal (Decimal 5000000 (-4))) ].

(** The database after the client "Acme Bank" was created in it, and after
    the event type "Maintain Balance" was created next. *)
Definition world_with_client : world := (create Client acme world0).2.
Definition world_with_event_type : world :=
  (create EventType maintain_balance world_with_client).2.

(** * Properties *)

(** *** Enum classes *)

Lemma declared_code_Some body n c :
  declared_code body n = Some c → (n, c) ∈ body.
Proof.
  induction body as [|[n' c'] rest IH]; simpl; [done|].
  case_decide as Hn.
  - intros [= <-]. subst. left.
  - intros H. right. auto.
Qed.

Lemma declared_code_None body n :
  declared_code body n = None ↔ n ∉ body.*1.
Proof.
  induction body as [|[n' c'] rest IH]; simpl.
  - split; [intros _; apply not_elem_of_nil | done].
  - rewrite not_elem_of_cons. case_decide as Hn; subst.
    + split; [done | intros [? _]; done].
    + rewrite IH. split; [intros ?; split; [congruence | done] | intros [_ ?]; done].
Qed.

Lemma declared_code_lookup body (k : nat) n c :
  NoDup body.*1 → body !! k = Some (n, c) → declared_code body n = Some c.
Proof.
  revert k. induction body as [|[n' c'] rest IH]; intros k Hnd Hk; [done|].
  simpl in *. apply NoDup_cons in Hnd as [Hnotin Hnd].
  destruct k as [|k]; simpl in Hk.
  - injection Hk as -> ->. by rewrite decide_True.
  - case_decide as Hn; [|by eapply IH].
    subst n'. exfalso. apply Hnotin.
    apply list_elem_of_fmap. exists (n, c). split; [done|].
    by eapply list_elem_of_lookup_2.
Qed.

Lemma canonical_name_first body (k : nat) n c :
  body !! k = Some (n, c) →
  ∃ (i : nat) n0,
    (i ≤ k)%nat ∧ body !! i = Some (n0, c) ∧
    (∀ (j : nat) n' c', (j < i)%nat → body !! j = Some (n', c') → c' ≠ c) ∧
    canonical_name body c = Some n0.
Proof.
  revert k. induction body as [|[n' c'] rest IH]; intros k Hk; [done|].
  simpl. case_decide as Hc.
  - subst c'. exists 0%nat, n'. split_and!; [lia | done | intros; lia | done].
  - destruct k as [|k]; simpl in Hk; [naive_solver|].
    destruct (IH _ Hk) as (i & n0 & Hik & Hi & Hfirst & Hcan).
    exists (S i), n0. split_and!; [lia | done | | done].
    intros [|j] n'' c'' Hj Hlk; simpl in Hlk.
    + naive_solver.
    + eapply Hfirst; [|done]. lia.
Qed.

Lemma enum_fields_NoDup cls : cls ∈ enum_fields → NoDup (enum_body cls).*1.
Proof.
  intros H. unfold enum_fields in H.
  repeat (apply elem_of_cons in H as [-> | H]); [.. | by apply elem_of_nil in H];
    apply (bool_decide_unpack _); vm_compute; exact I.
Qed.

(** C2 (as amended).  For every enum field and every name declared in it,
    encoding the name with [db_value] and decoding the stored text with
    [python_value] yields the member that the name denotes: the member of
    the name's code, which carries the first name declared with that code.
    The round trip returns the name itself when no earlier declaration has
    the same code. *)
Theorem enum_roundtrip_canonical cls (k : nat) n c :
  cls ∈ enum_fields →
  enum_body cls !! k = Some (n, c) →
  ∃ (i : nat) n0,
    (i ≤ k)%nat ∧ enum_body cls !! i = Some (n0, c) ∧
    (∀ (j : nat) n' c', (j < i)%nat → enum_body cls !! j = Some (n', c') → c' ≠ c) ∧
    python_value cls (db_value (VText n)) = Ok (VMember (Member (enum_name cls) n0 c)) ∧
    (i = k → n0 = n).
Proof.
  intros Hcls Hk.
  destruct (canonical_name_first _ _ _ _ Hk) as (i & n0 & Hik & Hi & Hfirst & Hcan).
  exists i, n0. split_and!; try done.
  - unfold python_value, db_value, enum_getitem, member_map; simpl.
    rewrite (declared_code_lookup _ k n c) by (by auto using enum_fields_NoDup).
    simpl. by rewrite Hcan.
  - intros ->. congruence.
Qed.

(** C2, counterexample.  [PERSONAL_LOAN] shares the code 70 with the
    earlier [LOAN]: stored as ["PERSONAL_LOAN"], it is decoded to the
    member named [LOAN]. *)
Lemma enum_roundtrip_alias_cex :
  ¬ (∀ cls n, cls ∈ enum_fields → n ∈ enum_names cls →
       ∃ m, python_value cls (db_value (VText n)) = Ok (VMember m) ∧ m_name m = n).
Proof.
  intros H.
  destruct (H AccountTypeField "PERSONAL_LOAN") as (m & Hm & Hn).
  - unfold enum_fields. repeat constructor.
  - unfold enum_names. simpl. repeat constructor.
  - vm_compute in Hm. injection Hm as <-. discriminate Hn.
Qed.

(** C3.  Decoding a stored text that is not a declared name of the enum
    field raises [KeyError]; decoding a null value returns null, and
    encoding a null value returns null. *)
Theorem enum_decode_undeclared cls s :
  s ∉ enum_names cls →
  python_value cls (VText s) = Raise (KeyError s) ∧
  python_value cls VNone = Ok VNone ∧
  db_value VNone = VNone.
Proof.
  intros Hs. split_and!; try done.
  unfold python_value, enum_getitem, member_map; simpl.
  apply declared_code_None in Hs. by rewrite Hs.
Qed.

(** *** Fixed-point values *)


Lemma round_half_even_exact n d : 0 < d → round_half_even (n * d) d = n.
Proof.
  intros Hd. unfold round_half_even.
  rewrite Z.div_mul, Z.mod_mul by lia.
  by rewrite (proj2 (Z.ltb_lt _ _)) by lia.
Qed.


Lemma quantize_exp places x : d_exp (quantize places x) = - places.
Proof. unfold quantize. by case_match. Qed.

Lemma quantize_idem places x : d_exp x = - places → quantize places x = x.
Proof.
  intros He. unfold quantize. rewrite (proj2 (Z.leb_le _ _)) by lia.
  destruct x as [c e]; simpl in *. subst e. rewrite Z.sub_diag. f_equal. lia.
Qed.

(** *** The world under the database operations *)

Lemma table_of_store_row_eq table pk r w :
  table_of (store_row table pk r w) table !! pk = Some r.
Proof.
  unfold table_of, table_in, store_row; simpl.
  rewrite lookup_insert_eq. simpl. apply lookup_insert_eq.
Qed.

Lemma table_of_store_row_ne table pk r w t k :
  (t, k) ≠ (table, pk) →
  table_of (store_row table pk r w) t !! k = table_of w t !! k.
Proof.
  intros Hne. unfold table_of, table_in, store_row; simpl.
  destruct (decide (table = t)) as [->|Ht].
  - rewrite lookup_insert_eq. simpl. rewrite lookup_insert_ne; [done|congruence].
  - by rewrite lookup_insert_ne.
Qed.

Lemma db_insert_Ok m fd w pk w' :
  db_insert m fd w = (Ok pk, w') →
  table_of w' (db_table m) !! pk = Some (encode_row m fd) ∧
  check_row (tables w) (db_table m) pk (encode_row m fd) (fields m) = Ok () ∧
  queries w' = Insert (db_table m) pk (encode_row m fd) :: queries w ∧
  clock w' = clock w ∧ ticks w' = ticks w ∧
  (∀ t k, (t, k) ≠ (db_table m, pk) → table_of w' t !! k = table_of w t !! k).
Proof.
  unfold db_insert. intros H.
  destruct (fd !! "id") as [[]|] eqn:Hid; simpl in H;
    repeat case_match; simplify_eq; simpl;
    (split_and!; [apply table_of_store_row_eq | by destruct (check_row _ _ _ _ _) as [[]|] | done..
                 | intros; by rewrite table_of_store_row_ne by done ]).
Qed.

Lemma db_insert_Raise m fd w e w' :
  db_insert m fd w = (Raise e, w') →
  tables w' = tables w ∧ clock w' = clock w ∧ ticks w' = ticks w.
Proof.
  unfold db_insert. intros H.
  destruct (fd !! "id") as [[]|] eqn:Hid; simpl in H;
    repeat case_match; simplify_eq; done.
Qed.

Lemma db_update_Ok m pk fd w rows w' :
  db_update m pk fd w = (Ok rows, w') →
  queries w' = Update (db_table m) pk (encode_row m fd) :: queries w ∧
  clock w' = clock w ∧ ticks w' = ticks w ∧
  ∀ old, table_of w (db_table m) !! pk = Some old →
    rows = 1 ∧
    table_of w' (db_table m) !! pk = Some (encode_row m fd ∪ old) ∧
    check_row (tables w) (db_table m) pk (encode_row m fd ∪ old) (fields m) = Ok () ∧
    (∀ t k, (t, k) ≠ (db_table m, pk) → table_of w' t !! k = table_of w t !! k).
Proof.
  unfold db_update. intros H.
  destruct (table_of w (db_table m) !! pk) as [old|] eqn:Hold.
  - destruct (check_row _ _ _ _ _) as [[]|] eqn:Hck; simplify_eq. simpl.
    split_and!; try done. intros ? [= <-].
    split_and!; [done | apply table_of_store_row_eq | done
                | intros; by rewrite table_of_store_row_ne by done].
  - simplify_eq. simpl. split_and!; try done.
Qed.

Lemma db_update_Raise m pk fd w e w' :
  db_update m pk fd w = (Raise e, w') →
  tables w' = tables w ∧ clock w' = clock w ∧ ticks w' = ticks w.
Proof.
  unfold db_update. intros H. repeat case_match; simplify_eq; done.
Qed.

(** *** Saving *)

Lemma Model_save_Raise m fi self w e self' w' :
  Model_save m fi self w = (Raise e, self', w') →
  self' = self ∧ tables w' = tables w ∧ clock w' = clock w ∧ ticks w' = ticks w.
Proof.
  unfold Model_save. intros H.
  repeat case_match; simplify_eq;
    (split; [done|]);
    first [ by eapply db_update_Raise | by eapply db_insert_Raise ].
Qed.

Lemma Model_save_Ok m fi self w rows self' w' :
  Model_save m fi self w = (Ok rows, self', w') →
  (∃ pk, _data self !! "id" = Some (VInt pk) ∧ fi = false ∧
         db_update m pk (save_dict fi self) w = (Ok rows, w') ∧
         self' = Instance (_data self) ∅) ∨
  (∃ pk, db_insert m (save_dict fi self) w = (Ok pk, w') ∧ rows = 1 ∧
         self' = Instance (<["id" := VInt pk]> (_data self)) ∅ ∧
         (fi = true ∨ ∀ k, _data self !! "id" ≠ Some (VInt k))).
Proof.
  unfold Model_save. intros H.
  repeat case_match; simplify_eq;
    first [ left; by eauto 10
          | right; eexists; split_and!; [done | done | done | by eauto ] ].
Qed.

Lemma save_unfold m fi self w :
  save m fi self w =
  Model_save m fi (setattr self "updated" (VDateTime (clock w (ticks w))))
             (DT_now w).2.
Proof. done. Qed.

Lemma save_clock m fi self w r self' w' :
  save m fi self w = (r, self', w') →
  clock w' = clock w ∧ ticks w' = S (ticks w).
Proof.
  rewrite save_unfold. intros H. destruct r as [rows|e].
  - apply Model_save_Ok in H as [(pk & _ & _ & H & _)|(pk & H & _)].
    + apply db_update_Ok in H as (_ & -> & -> & _). done.
    + apply db_insert_Ok in H as (_ & _ & _ & -> & -> & _). done.
  - apply Model_save_Raise in H as (_ & _ & -> & ->). done.
Qed.

(** C10.  When the persist operation raises during [save], the record
    in memory already carries the clock reading in [updated] (and the
    field is marked dirty), its other fields are as before, and nothing
    was written to the tables. *)
Theorem save_failure_keeps_stamp m fi self w e self' w' :
  save m fi self w = (Raise e, self', w') →
  _data self' !! "updated" = Some (VDateTime (clock w (ticks w))) ∧
  "updated" ∈ _dirty self' ∧
  (∀ name, name ≠ "updated" → _data self' !! name = _data self !! name) ∧
  tables w' = tables w.
Proof.
  rewrite save_unfold. intros H.
  apply Model_save_Raise in H as (-> & Ht & _). simpl.
  split_and!; [apply lookup_insert_eq | | | done].
  { apply elem_of_union_l. by apply elem_of_singleton. }
  intros name Hne. by rewrite lookup_insert_ne.
Qed.

(** *** The declared models *)

Lemma get_field_name fs name f : get_field fs name = Some f → f_name f = name ∧ f ∈ fs.
Proof.
  induction fs as [|g rest IH]; simpl; [done|].
  case_decide as Hn.
  - intros [= <-]. split; [done | left].
  - intros H. destruct (IH H). split; [done | by right].
Qed.

Lemma get_field_In fs f :
  NoDup (f_name <$> fs) → f ∈ fs → get_field fs (f_name f) = Some f.
Proof.
  induction fs as [|g rest IH]; simpl; intros Hnd Hin.
  - by apply elem_of_nil in Hin.
  - apply NoDup_cons in Hnd as [Hg Hnd].
    apply elem_of_cons in Hin as [->|Hin]; [by rewrite decide_True|].
    case_decide as Hn; [|by apply IH].
    exfalso. apply Hg. rewrite Hn. apply list_elem_of_fmap. eauto.
Qed.

Lemma models_cases (P : model → Prop) :
  P Client → P EventType → P ClientConfig → P Destination →
  P DestinationConfig → P EventBatch → P EventBatchDelivery → P Event →
  P EventBatchDeliveryErrorEvent →
  ∀ m, m ∈ models → P m.
Proof.
  intros ????????? m H. unfold models in H.
  repeat (apply elem_of_cons in H as [-> | H]); try done.
  by apply elem_of_nil in H.
Qed.

Lemma models_NoDup m : m ∈ models → NoDup (f_name <$> fields m).
Proof.
  revert m. apply models_cases; apply (bool_decide_unpack _); vm_compute; exact I.
Qed.

Lemma models_id m f : m ∈ models → f ∈ fields m → f_name f ≠ "id".
Proof.
  intros Hm Hf Hid.
  assert (H : "id" ∈ f_name <$> fields m) by (rewrite <- Hid; apply list_elem_of_fmap; eauto).
  revert m Hm f Hf Hid H.
  apply (models_cases (fun m => ∀ f, f ∈ fields m → f_name f = "id" → "id" ∈ f_name <$> fields m → False));
    intros f _ _ H; apply (bool_decide_pack _) in H; vm_compute in H; exact H.
Qed.

Lemma models_updated m : m ∈ models → get_field (fields m) "updated" = Some updated_field.
Proof. revert m. apply models_cases; reflexivity. Qed.

Lemma models_inserted m : m ∈ models → get_field (fields m) "inserted" = Some inserted_field.
Proof. revert m. apply models_cases; reflexivity. Qed.

(** *** Rows *)

Lemma encode_row_lookup m fd name :
  encode_row m fd !! name =
  v ← fd !! name; (fun f => field_db_value (f_type f) v) <$> get_field (fields m) name.
Proof. unfold encode_row. by rewrite map_lookup_imap. Qed.

Lemma encode_row_field m fd f v :
  NoDup (f_name <$> fields m) → f ∈ fields m → fd !! f_name f = Some v →
  encode_row m fd !! f_name f = Some (field_db_value (f_type f) v).
Proof.
  intros Hnd Hf Hv. rewrite encode_row_lookup, Hv. simpl.
  by rewrite get_field_In.
Qed.

Lemma encode_row_None m fd name :
  fd !! name = None → encode_row m fd !! name = None.
Proof. intros H. by rewrite encode_row_lookup, H. Qed.

Lemma decode_row_field fs r d f :
  NoDup (f_name <$> fs) → decode_row fs r = Ok d → f ∈ fs →
  ∃ v, d !! f_name f = Some v ∧
       field_python_value (f_type f) (default VNone (r !! f_name f)) = Ok v.
Proof.
  revert d. induction fs as [|g rest IH]; simpl; intros d Hnd Hd Hin.
  - by apply elem_of_nil in Hin.
  - apply NoDup_cons in Hnd as [Hg Hnd].
    destruct (field_python_value (f_type g) _) as [v|] eqn:Hv; [|done]. simpl in Hd.
    destruct (decode_row rest r) as [d'|] eqn:Hd'; [|done]. simpl in Hd.
    injection Hd as <-.
    apply elem_of_cons in Hin as [->|Hin].
    + exists v. by rewrite lookup_insert_eq.
    + destruct (IH d' Hnd eq_refl Hin) as (v' & Hl & Hp).
      exists v'. split; [|done]. rewrite lookup_insert_ne; [done|].
      intros Heq. apply Hg. rewrite Heq. apply list_elem_of_fmap. eauto.
Qed.

Lemma decode_row_total fs r :
  (∀ f, f ∈ fs → ∃ v, field_python_value (f_type f) (default VNone (r !! f_name f)) = Ok v) →
  ∃ d, decode_row fs r = Ok d.
Proof.
  induction fs as [|g rest IH]; simpl; intros H; [eauto|].
  destruct (H g) as [v ->]; [left|]. simpl.
  destruct IH as [d ->]; [intros; apply H; by right|]. simpl. eauto.
Qed.

(** *** Creating *)

Lemma default_dict_models m w d w1 :
  m ∈ models → default_dict (fields m) w = (d, w1) →
  clock w1 = clock w ∧ ticks w1 = S (S (ticks w)) ∧ tables w1 = tables w ∧
  queries w1 = queries w ∧
  d !! "inserted" = Some (VDateTime (clock w (ticks w))) ∧
  d !! "updated" = Some (VDateTime (clock w (S (ticks w)))) ∧
  (m = Client ∨ m = ClientConfig → d !! "status" = Some (VText "PENDING")).
Proof.
  revert m.
  apply (models_cases (fun m => default_dict (fields m) w = (d, w1) → _));
    intros H; cbn in H; injection H as <- <-;
    (split_and!; [done | done | done | done | by vm_compute | by vm_compute | ]);
    intros [Hm|Hm]; first [ by vm_compute | discriminate Hm ].
Qed.

Lemma create_Ok m kwargs w inst w' :
  create m kwargs w = (Ok inst, w') →
  ∃ d w1 pk,
    default_dict (fields m) w = (d, w1) ∧
    inst = Instance (<["id" := VInt pk]>
                       (<["updated" := VDateTime (clock w1 (ticks w1))]> (kwargs ∪ d))) ∅ ∧
    table_of w' (db_table m) !! pk =
      Some (encode_row m (<["updated" := VDateTime (clock w1 (ticks w1))]> (kwargs ∪ d))) ∧
    check_row (tables w1) (db_table m) pk
      (encode_row m (<["updated" := VDateTime (clock w1 (ticks w1))]> (kwargs ∪ d)))
      (fields m) = Ok () ∧
    clock w' = clock w1 ∧ ticks w' = S (ticks w1).
Proof.
  unfold create, new. destruct (default_dict (fields m) w) as [d w1] eqn:Hd.
  destruct (save m true _ w1) as [[[rows|e] self'] w2] eqn:Hs; [|done].
  intros [= <- <-]. exists d, w1.
  destruct (save_clock _ _ _ _ _ _ _ Hs) as [Hc Ht].
  rewrite save_unfold in Hs.
  apply Model_save_Ok in Hs as [(pk & _ & ? & _)|(pk & Hi & _ & -> & _)]; [done|].
  apply db_insert_Ok in Hi as (Hrow & Hck & _).
  exists pk. split_and!; done.
Qed.

Lemma canonical_name_Some body c n :
  canonical_name body c = Some n →
  ∃ i : nat, body !! i = Some (n, c) ∧
    ∀ (j : nat) n' c', (j < i)%nat → body !! j = Some (n', c') → c' ≠ c.
Proof.
  induction body as [|[n' c'] rest IH]; simpl; [done|].
  case_decide as Hc.
  - intros [= <-]. subst c'. exists 0%nat. split; [done | intros; lia].
  - intros H. destruct (IH H) as (i & Hi & Hfirst).
    exists (S i). split; [done|].
    intros [|j] n'' c'' Hj Hlk; simpl in Hlk.
    + by injection Hlk as <- <-.
    + eapply Hfirst; [|done]. lia.
Qed.

Lemma canonical_name_declared body n c :
  (n, c) ∈ body → is_Some (canonical_name body c).
Proof.
  induction body as [|[n' c'] rest IH]; simpl; intros Hin.
  - by apply elem_of_nil in Hin.
  - case_decide; [eauto|]. apply IH.
    apply elem_of_cons in Hin as [[= -> ->]|Hin]; done.
Qed.

Lemma python_value_Ok cls v v' :
  python_value cls v = Ok v' →
  (v = VNone ∧ v' = VNone) ∨
  (v ≠ VNone ∧ ∃ c n,
     declared_code (enum_body cls) (coerce_to_unicode v) = Some c ∧
     canonical_name (enum_body cls) c = Some n ∧
     v' = VMember (Member (enum_name cls) n c)).
Proof.
  unfold python_value, enum_getitem, member_map.
  destruct (decide (v = VNone)) as [->|Hv]; [intros [= <-]; by left|].
  intros H. right. split; [done|].
  destruct (declared_code _ _) as [c|] eqn:Hc; simpl in H;
    [destruct (canonical_name _ c) as [n|] eqn:Hn; simpl in H|];
    destruct v; simplify_eq; eauto.
Qed.

Lemma python_value_declared cls s :
  s ∈ enum_names cls → ∃ v', python_value cls (VText s) = Ok v'.
Proof.
  intros Hs. unfold python_value, enum_getitem, member_map; simpl.
  destruct (declared_code (enum_body cls) s) as [c|] eqn:Hc.
  - simpl.
    destruct (canonical_name_declared _ _ _ (declared_code_Some _ _ _ Hc)) as [n ->].
    simpl. eauto.
  - apply declared_code_None in Hc. done.
Qed.

Lemma db_value_None v : db_value v = VNone ↔ v = VNone.
Proof. destruct v; done. Qed.

Lemma readback_reloads t v v' :
  field_python_value t (field_db_value t v) = Ok v' → reloads_as t v v'.
Proof.
  destruct t as [| | | | |digits places [|]| |cls]; simpl;
    try (intros [= <-]; by constructor).
  - destruct v; intros [= <-]; by constructor.
  - intros H. apply python_value_Ok in H as [[Hv ->]|(Hv & c & n & Hc & Hn & ->)].
    + apply db_value_None in Hv as ->. by constructor.
    + rewrite db_value_None in Hv.
      apply canonical_name_Some in Hn as (i & Hi & Hfirst).
      eapply reload_enum; try done.
      by destruct v.
Qed.

Lemma get_created m pk r w :
  table_of w (db_table m) !! pk = Some r →
  get m pk w = (d ← decode_row (fields m) r; Ok (Instance (<["id" := VInt pk]> d) ∅)).
Proof. intros H. unfold get. by rewrite H. Qed.

Lemma default_dict_value fs w d w1 name v :
  default_dict fs w = (d, w1) → d !! name = Some v →
  ∃ f, f ∈ fs ∧ f_name f = name ∧
       (f_default f = Some (DefaultValue v) ∨
        f_default f = Some DefaultNow ∧ ∃ t, v = VDateTime t).
Proof.
  revert d w w1. induction fs as [|f fs IH]; simpl; intros d w w1 Hd Hv.
  - by simplify_eq.
  - destruct (f_default f) as [[v'|]|] eqn:Hdef.
    + destruct (default_dict fs w) as [d' w''] eqn:Hd'. simplify_eq.
      destruct (decide (f_name f = name)) as [Hn|Hn].
      * rewrite Hn, lookup_insert_eq in Hv. simplify_eq.
        exists f. split_and!; [left | done | by left].
      * rewrite lookup_insert_ne in Hv by done.
        destruct (IH _ _ _ Hd' Hv) as (g & ? & ? & ?).
        exists g. split_and!; [by right|done..].
    + destruct (default_dict fs _) as [d' w''] eqn:Hd'. simplify_eq.
      destruct (decide (f_name f = name)) as [Hn|Hn].
      * rewrite Hn, lookup_insert_eq in Hv. simplify_eq.
        exists f. split_and!; [left | done | right; eauto].
      * rewrite lookup_insert_ne in Hv by done.
        destruct (IH _ _ _ Hd' Hv) as (g & ? & ? & ?).
        exists g. split_and!; [by right|done..].
    + destruct (IH _ _ _ Hd Hv) as (g & ? & ? & ?).
      exists g. split_and!; [by right|done..].
Qed.

Lemma default_dict_given fs w d w1 f v :
  NoDup (f_name <$> fs) → default_dict fs w = (d, w1) →
  f ∈ fs → f_default f = Some (DefaultValue v) →
  d !! f_name f = Some v.
Proof.
  revert d w w1. induction fs as [|g fs IH]; simpl; intros d w w1 Hnd Hd Hf Hdef.
  - by apply elem_of_nil in Hf.
  - apply NoDup_cons in Hnd as [Hg Hnd].
    assert (Hne : f ∈ fs → f_name g ≠ f_name f).
    { intros Hin Heq. apply Hg. rewrite Heq. apply list_elem_of_fmap. eauto. }
    apply elem_of_cons in Hf as [->|Hf].
    + rewrite Hdef in Hd. destruct (default_dict fs w) as [d' w'']. simplify_eq.
      apply lookup_insert_eq.
    + destruct (f_default g) as [[v'|]|].
      * destruct (default_dict fs w) as [d' w''] eqn:Hd'. simplify_eq.
        rewrite lookup_insert_ne by auto. eauto.
      * destruct (default_dict fs _) as [d' w''] eqn:Hd'. simplify_eq.
        rewrite lookup_insert_ne by auto. eauto.
      * eauto.
Qed.

Lemma models_enum_default m f cls :
  m ∈ models → f ∈ fields m → f_type f = EnumField cls →
  f_default f ≠ Some DefaultNow ∧
  ∀ v, f_default f = Some (DefaultValue v) → coerce_to_unicode v ∈ enum_names cls.
Proof.
  intros Hm. revert m Hm f.
  apply (models_cases (fun m => ∀ f, f ∈ fields m → f_type f = EnumField cls → _));
    intros f Hf Ht; simpl in Hf;
    repeat (apply elem_of_cons in Hf as [->|Hf]);
    try (by apply elem_of_nil in Hf); try discriminate Ht;
    simpl in Ht; injection Ht as <-; (split; [done|]);
    intros v Hv; try discriminate Hv; simpl in Hv; injection Hv as <-;
    unfold enum_names; simpl; repeat constructor.
Qed.

Lemma field_not_updated m f :
  m ∈ models → f ∈ fields m → f ≠ updated_field → f_name f ≠ "updated".
Proof.
  intros Hm Hf Hne Hn.
  pose proof (get_field_In _ _ (models_NoDup m Hm) Hf) as Hg.
  rewrite Hn, (models_updated m Hm) in Hg. by simplify_eq.
Qed.

(** C4 (as amended).  For every entity type, after a successful create
    the record holds the given values, the defaults of the fields not
    given, and in [updated] the clock reading of the save, whatever was
    given for it.  The record reloaded by its primary key holds that
    reading in [updated] and, for every other field, the given value as
    the field type reads it back: unchanged for text, integer, date and
    timestamp fields, rounded to the declared places for fixed-point
    fields, and for enum fields the member denoted by the given name,
    which carries the first name declared with the same code.  The reload
    succeeds when the enum fields were given declared names. *)
Theorem create_get_roundtrip m kwargs w inst w' :
  m ∈ models →
  create m kwargs w = (Ok inst, w') →
  ∃ pk,
    _data inst !! "id" = Some (VInt pk) ∧
    (∀ f v, f ∈ fields m → f_name f ≠ "updated" →
            kwargs !! f_name f = Some v → _data inst !! f_name f = Some v) ∧
    (∀ f v, f ∈ fields m → kwargs !! f_name f = None →
            f_default f = Some (DefaultValue v) → _data inst !! f_name f = Some v) ∧
    _data inst !! "updated" = Some (VDateTime (clock w (S (S (ticks w))))) ∧
    (∀ inst', get m pk w' = Ok inst' →
       _data inst' !! "id" = Some (VInt pk) ∧
       _data inst' !! "updated" = Some (VDateTime (clock w (S (S (ticks w))))) ∧
       (∀ f v, f ∈ fields m → f_name f ≠ "updated" →
               kwargs !! f_name f = Some v →
               ∃ v', _data inst' !! f_name f = Some v' ∧ reloads_as (f_type f) v v') ∧
       (∀ f v, f ∈ fields m → _data inst !! f_name f = Some v →
               ∃ v', _data inst' !! f_name f = Some v' ∧ reloads_as (f_type f) v v')) ∧
    ((∀ f cls v, f ∈ fields m → f_type f = EnumField cls →
        kwargs !! f_name f = Some v →
        v = VNone ∨ coerce_to_unicode v ∈ enum_names cls) →
     ∃ inst', get m pk w' = Ok inst') ∧
    ((∀ f cls v, f ∈ fields m → f_type f = EnumField cls →
        _data inst !! f_name f = Some v →
        v = VNone ∨ coerce_to_unicode v ∈ enum_names cls) →
     ∃ inst', get m pk w' = Ok inst').
Proof.
  intros Hm Hc.
  apply create_Ok in Hc as (d & w1 & pk & Hdd & -> & Hrow & _).
  destruct (default_dict_models _ _ _ _ Hm Hdd) as (Hc1 & Ht1 & _).
  rewrite Hc1, Ht1 in *.
  pose proof (models_NoDup m Hm) as Hnd.
  set (data := <["updated" := VDateTime (clock w (S (S (ticks w))))]> (kwargs ∪ d)) in *.
  assert (Hgiven : ∀ f v, f ∈ fields m → f_name f ≠ "updated" →
                          kwargs !! f_name f = Some v → data !! f_name f = Some v).
  { intros f v Hf Hne Hk. unfold data. rewrite lookup_insert_ne by done.
    by apply lookup_union_Some_l. }
  assert (Hback : ∀ d', decode_row (fields m) (encode_row m data) = Ok d' →
                  ∀ f v, f ∈ fields m → data !! f_name f = Some v →
                         ∃ v', d' !! f_name f = Some v' ∧ reloads_as (f_type f) v v').
  { intros d' Hd f v Hf Hv.
    destruct (decode_row_field _ _ _ f Hnd Hd Hf) as (v' & Hv' & Hp).
    exists v'. split; [done|]. apply readback_reloads.
    by rewrite (encode_row_field _ _ _ _ Hnd Hf Hv) in Hp. }
  assert (Htotal : (∀ f cls v, f ∈ fields m → f_type f = EnumField cls →
                      data !! f_name f = Some v →
                      v = VNone ∨ coerce_to_unicode v ∈ enum_names cls) →
                   ∃ d', decode_row (fields m) (encode_row m data) = Ok d').
  { intros Henum. apply decode_row_total. intros f Hf.
    destruct (data !! f_name f) as [v|] eqn:Hv.
    - rewrite (encode_row_field _ _ _ _ Hnd Hf Hv). simpl.
      destruct (f_type f) as [| | | | | | |cls] eqn:Ht; simpl; eauto.
      destruct (Henum f cls v Hf Ht Hv) as [->|Hin]; [eauto|].
      destruct v; simpl in *; eauto using python_value_declared.
    - rewrite (encode_row_None _ _ _ Hv). simpl.
      destruct (f_type f); simpl; eauto. }
  exists pk. simpl. split; [apply lookup_insert_eq|].
  split.
  { intros f v Hf Hne Hk. pose proof (models_id m f Hm Hf) as Hid.
    rewrite lookup_insert_ne by done. by apply Hgiven. }
  split.
  { intros f v Hf Hk Hdef. pose proof (models_id m f Hm Hf) as Hid.
    rewrite lookup_insert_ne by done.
    assert (Hne : f_name f ≠ "updated").
    { apply (field_not_updated m f Hm Hf). intros ->. discriminate Hdef. }
    unfold data. rewrite lookup_insert_ne by done.
    rewrite lookup_union_r by done. by eapply default_dict_given. }
  split; [rewrite lookup_insert_ne by done; apply lookup_insert_eq|].
  rewrite (get_created _ _ _ _ Hrow). split; [|split].
  - intros inst' Hg.
    destruct (decode_row (fields m) _) as [d'|] eqn:Hd; [|done].
    injection Hg as <-. simpl. split; [apply lookup_insert_eq|].
    split.
    { rewrite lookup_insert_ne by done.
      destruct (Hback d' eq_refl updated_field (VDateTime (clock w (S (S (ticks w))))))
        as (v' & Hv' & Hr).
      - destruct (get_field_name _ _ _ (models_updated m Hm)) as [_ ?]. done.
      - apply lookup_insert_eq.
      - simpl in Hv'. rewrite Hv'. by inversion Hr. }
    split.
    + intros f v Hf Hne Hk. pose proof (models_id m f Hm Hf) as Hid.
      rewrite lookup_insert_ne by done.
      apply (Hback d' eq_refl f v Hf). by apply Hgiven.
    + intros f v Hf Hv. pose proof (models_id m f Hm Hf) as Hid.
      rewrite lookup_insert_ne in Hv by done. rewrite lookup_insert_ne by done.
      by apply (Hback d' eq_refl f v Hf).
  - intros Henum. destruct Htotal as [d' ->]; [|simpl; eauto].
    intros f cls v Hf Ht Hv.
    assert (Hne : f_name f ≠ "updated").
    { apply (field_not_updated m f Hm Hf). intros ->. discriminate Ht. }
    unfold data in Hv. rewrite lookup_insert_ne in Hv by done.
    apply lookup_union_Some_raw in Hv as [Hv|[Hk Hv]]; [by eapply Henum|].
    right.
    destruct (default_dict_value _ _ _ _ _ _ Hdd Hv) as (g & Hg & Hn & Hdef).
    assert (g = f) as ->.
    { pose proof (get_field_In _ _ Hnd Hg) as H1.
      pose proof (get_field_In _ _ Hnd Hf) as H2. rewrite Hn in H1. congruence. }
    destruct (models_enum_default m f cls Hm Hf Ht) as [Hnow Hval].
    destruct Hdef as [Hdef|[Hdef _]]; [by apply Hval | done].
  - intros Henum. destruct Htotal as [d' ->]; [|simpl; eauto].
    intros f cls v Hf Ht Hv. apply (Henum f cls v Hf Ht).
    pose proof (models_id m f Hm Hf) as Hid. by rewrite lookup_insert_ne by done.
Qed.

Lemma check_row_field tbls table pk r fs f :
  check_row tbls table pk r fs = Ok () → f ∈ fs →
  check_field tbls table pk r f = Ok ().
Proof.
  induction fs as [|g rest IH]; simpl; intros Hck Hin.
  - by apply elem_of_nil in Hin.
  - destruct (check_field tbls table pk r g) as [[]|] eqn:Hg; [|done].
    apply elem_of_cons in Hin as [->|Hin]; auto.
Qed.



(** C7.  Without explicit [inserted] and [updated] the constructor gives
    both fields their default, a reading of the clock taken during the
    construction, and gives [status] of a [Client] or [ClientConfig]
    without explicit [status] the default [PENDING].  The record created
    from it holds, in memory and in its row, readings of the clock taken
    during the creation in [inserted] and [updated], and [PENDING] in
    [status]. *)
Theorem creation_defaults m kwargs w :
  m ∈ models →
  kwargs !! "inserted" = None →
  kwargs !! "updated" = None →
  (∃ (i j : nat),
     (ticks w ≤ i < ticks (new m kwargs w).2)%nat ∧
     (ticks w ≤ j < ticks (new m kwargs w).2)%nat ∧
     _data (new m kwargs w).1 !! "inserted" = Some (VDateTime (clock w i)) ∧
     _data (new m kwargs w).1 !! "updated" = Some (VDateTime (clock w j)) ∧
     (m = Client ∨ m = ClientConfig → kwargs !! "status" = None →
        _data (new m kwargs w).1 !! "status" = Some (VText "PENDING"))) ∧
  (∀ inst w',
     create m kwargs w = (Ok inst, w') →
     ∃ (i j : nat) pk r,
       (ticks w ≤ i < ticks w')%nat ∧ (ticks w ≤ j < ticks w')%nat ∧
       _data inst !! "id" = Some (VInt pk) ∧
       table_of w' (db_table m) !! pk = Some r ∧
       _data inst !! "inserted" = Some (VDateTime (clock w i)) ∧
       r !! "inserted" = Some (VDateTime (clock w i)) ∧
       _data inst !! "updated" = Some (VDateTime (clock w j)) ∧
       r !! "updated" = Some (VDateTime (clock w j)) ∧
       (m = Client ∨ m = ClientConfig → kwargs !! "status" = None →
          _data inst !! "status" = Some (VText "PENDING") ∧
          r !! "status" = Some (VText "PENDING"))).
Proof.
  intros Hm Hins Hupd. split.
  - unfold new. destruct (default_dict (fields m) w) as [d w1] eqn:Hd.
    destruct (default_dict_models _ _ _ _ Hm Hd) as (_ & Ht1 & _ & _ & Hdi & Hdu & Hds).
    exists (ticks w), (S (ticks w)). simpl. rewrite Ht1.
    split; [lia|]. split; [lia|]. split_and!.
    + by rewrite lookup_union_r.
    + by rewrite lookup_union_r.
    + intros Hcc Hst. rewrite lookup_union_r by done. auto.
  - intros inst w' Hc.
    apply create_Ok in Hc as (d & w1 & pk & Hd & -> & Hrow & _ & Hclk & Htk).
    destruct (default_dict_models _ _ _ _ Hm Hd) as (Hc1 & Ht1 & _ & _ & Hdi & _ & Hds).
    rewrite Hc1, Ht1 in *.
    eexists (ticks w), (S (S (ticks w))), pk, _. simpl.
    split; [lia|]. split; [lia|].
    split; [apply lookup_insert_eq|]. split; [exact Hrow|].
    split_and!.
    + rewrite !lookup_insert_ne by done. by rewrite lookup_union_r.
    + rewrite encode_row_lookup, lookup_insert_ne by done.
      rewrite lookup_union_r by done. rewrite Hdi. simpl.
      by rewrite models_inserted.
    + rewrite lookup_insert_ne by done. apply lookup_insert_eq.
    + rewrite encode_row_lookup, lookup_insert_eq. simpl.
      by rewrite models_updated.
    + intros Hcc Hst. specialize (Hds Hcc).
      split.
      * rewrite !lookup_insert_ne by done. by rewrite lookup_union_r.
      * rewrite encode_row_lookup, lookup_insert_ne by done.
        rewrite lookup_union_r by done. rewrite Hds. simpl.
        by destruct Hcc as [-> | ->].
Qed.

Lemma db_update_missing m pk fd w rows w' :
  db_update m pk fd w = (Ok rows, w') →
  table_of w (db_table m) !! pk = None → rows = 0.
Proof. unfold db_update. intros H Hn. rewrite Hn in H. by simplify_eq. Qed.

Lemma save_dict_updated fi self v :
  save_dict fi (setattr self "updated" v) !! "updated" = Some v.
Proof.
  unfold save_dict. destruct (only_save_dirty && negb fi).
  - apply map_lookup_filter_Some. simpl. split; [apply lookup_insert_eq|].
    apply elem_of_union_l. by apply elem_of_singleton.
  - apply lookup_insert_eq.
Qed.

Lemma encode_row_updated m fd t :
  m ∈ models → fd !! "updated" = Some (VDateTime t) →
  encode_row m fd !! "updated" = Some (VDateTime t).
Proof.
  intros Hm Hfd. rewrite encode_row_lookup, Hfd. simpl.
  by rewrite models_updated.
Qed.

Lemma save_stamp m fi self w rows self' w' :
  save m fi self w = (Ok rows, self', w') →
  _data self' !! "updated" = Some (VDateTime (clock w (ticks w))).
Proof.
  rewrite save_unfold. intros H.
  apply Model_save_Ok in H as [(pk & _ & _ & _ & ->)|(pk & _ & _ & -> & _)]; simpl.
  - apply lookup_insert_eq.
  - rewrite lookup_insert_ne by done. apply lookup_insert_eq.
Qed.

(** C1 (as amended).  Every successful save sets [updated] to the clock
    reading taken immediately before persisting, and that reading is what
    the written row holds.  The new value is at least the previous one
    whenever the previous one is not ahead of the clock; in particular a
    later save under a clock that does not go back never decreases it. *)
Theorem save_stamps_updated m fi self w rows self' w' :
  m ∈ models →
  save m fi self w = (Ok rows, self', w') →
  _data self' !! "updated" = Some (VDateTime (clock w (ticks w))) ∧
  (rows = 1 →
   ∃ pk r, _data self' !! "id" = Some (VInt pk) ∧
           table_of w' (db_table m) !! pk = Some r ∧
           r !! "updated" = Some (VDateTime (clock w (ticks w)))) ∧
  (∀ t0, _data self !! "updated" = Some (VDateTime t0) →
         t0 ≤ clock w (ticks w) →
         ∃ t1, _data self' !! "updated" = Some (VDateTime t1) ∧ t0 ≤ t1) ∧
  (∀ fi2 self2 w2 rows2 self2' w2',
     (∀ i j : nat, (i ≤ j)%nat → clock w i ≤ clock w j) →
     clock w2 = clock w → (ticks w' ≤ ticks w2)%nat →
     _data self2 !! "updated" = _data self' !! "updated" →
     save m fi2 self2 w2 = (Ok rows2, self2', w2') →
     ∃ t1 t2, _data self2 !! "updated" = Some (VDateTime t1) ∧
              _data self2' !! "updated" = Some (VDateTime t2) ∧ t1 ≤ t2).
Proof.
  intros Hm Hs.
  pose proof (save_stamp _ _ _ _ _ _ _ Hs) as Hst.
  destruct (save_clock _ _ _ _ _ _ _ Hs) as [Hclk Htk].
  split_and!; [done | | eauto |].
  - intros ->. rewrite save_unfold in Hs.
    apply Model_save_Ok in Hs as [(pk & Hid & _ & Hu & ->)|(pk & Hi & _ & -> & _)]; simpl.
    + exists pk.
      destruct (table_of (DT_now w).2 (db_table m) !! pk) as [old|] eqn:Hold.
      * apply db_update_Ok in Hu as (_ & _ & _ & Hu).
        destruct (Hu old Hold) as (_ & Hrow & _).
        eexists. split_and!; [done | done |].
        apply lookup_union_Some_l, encode_row_updated, save_dict_updated. done.
      * by apply db_update_missing in Hu.
    + apply db_insert_Ok in Hi as (Hrow & _).
      exists pk. eexists. split_and!; [apply lookup_insert_eq | done |].
      apply encode_row_updated, save_dict_updated. done.
  - intros fi2 self2 w2 rows2 self2' w2' Hmono Hc2 Ht2 Heq Hs2.
    apply save_stamp in Hs2. rewrite Heq, Hst, Hs2, Hc2.
    eexists _, _. split_and!; [done | done |]. apply Hmono. lia.
Qed.

Lemma acme_loaded_get : get Client 1 world_clock_behind = Ok acme_loaded.
Proof. vm_compute. reflexivity. Qed.

(** C1, counterexample.  A record whose [updated] is ahead of the clock
    (stamped 102, saved when the clock reads 50) is saved successfully and
    its [updated] decreases. *)
Lemma save_updated_decreases :
  ¬ (∀ m fi self w rows self' w' t0 t1,
       m ∈ models →
       save m fi self w = (Ok rows, self', w') →
       _data self !! "updated" = Some (VDateTime t0) →
       _data self' !! "updated" = Some (VDateTime t1) →
       t0 ≤ t1).
Proof.
  intros H.
  destruct (save Client false acme_loaded world_clock_behind) as [[r self'] w'] eqn:Hs.
  pose proof (f_equal (fun x => (x.1.1, _data x.1.2 !! "updated")) Hs) as Hx.
  vm_compute in Hx. injection Hx as <- Hu.
  specialize (H Client false acme_loaded world_clock_behind 1 self' w' 102 50).
  assert (102 ≤ 50); [|lia].
  apply H; [unfold models; repeat constructor | done | by vm_compute | done].
Qed.





(** C4, counterexample.  An event type created with the behaviour type
    [MAINTAIN_ACCOUNT_BALANCE] is reloaded with the member named
    [MINIMUM_ACCOUNT_BALANCE], even when a member is taken to equal the
    text of its name. *)
Lemma create_get_alias_renamed :
  ¬ (∀ m kwargs w inst w' pk inst' f v,
       m ∈ models →
       create m kwargs w = (Ok inst, w') →
       _data inst !! "id" = Some (VInt pk) →
       get m pk w' = Ok inst' →
       f ∈ fields m →
       kwargs !! f_name f = Some v →
       _data inst !! f_name f = Some v →
       ∃ v', _data inst' !! f_name f = Some v' ∧ equal_as_written v v').
Proof.
  intros H.
  set (out := create EventType maintain_balance world0).
  destruct (H EventType maintain_balance world0 (returned out.1) out.2 1
              (returned (get EventType 1 out.2))
              (Field "behavior_type" (EnumField BehaviorTypeField) false false None)
              (VText "MAINTAIN_ACCOUNT_BALANCE"))
    as (v' & Hv' & Heq).
  - unfold models. repeat constructor.
  - vm_compute. reflexivity.
  - vm_compute. reflexivity.
  - vm_compute. reflexivity.
  - simpl. repeat constructor.
  - vm_compute. reflexivity.
  - vm_compute. reflexivity.
  - vm_compute in Hv'. injection Hv' as <-.
    destruct Heq as [Heq|[(d & Heq & _)|(n & m & Hn & Hm & Hname)]];
      [discriminate Heq | discriminate Heq |].
    injection Hn as <-. injection Hm as <-. discriminate Hname.
Qed.

(** C8.  [get_db_connection] calls the database constructor exactly once,
    with the given database name and the given user, password, host and
    port and nothing else, for whatever values it is given; it returns the
    handle the constructor returns, and an error raised by the constructor
    is the outcome of the call as it is. *)
Theorem get_db_connection_spec
    (driver : value → gmap string value → result database)
    db user passwd host port autocommit :
  let kwargs : gmap string value :=
    <["user" := user]> (<["password" := passwd]>
      (<["host" := host]> (<["port" := port]> ∅))) in
  run driver (get_db_connection db user passwd host port autocommit)
    = (driver db kwargs, [(db, kwargs)]) ∧
  run PostgresqlDatabase (get_db_connection db user passwd host port autocommit)
    = (Ok (Database db kwargs), [(db, kwargs)]) ∧
  kwargs !! "user" = Some user ∧
  kwargs !! "password" = Some passwd ∧
  kwargs !! "host" = Some host ∧
  kwargs !! "port" = Some port ∧
  (∀ key, is_Some (kwargs !! key) →
          key ∈ ["user"; "password"; "host"; "port"]).
Proof.
  intros kwargs. split_and!.
  - unfold get_db_connection. simpl. fold kwargs. by destruct (driver db kwargs).
  - done.
  - done.
  - done.
  - done.
  - done.
  - intros key [v Hv]. unfold kwargs in Hv.
    repeat (apply lookup_insert_Some in Hv as [[<- _]|[_ Hv]];
            [repeat constructor|]).
    by rewrite lookup_empty in Hv.
Qed.

(** C9.  Two calls of [get_db_connection] that differ only in
    [autocommit] are the same computation. *)
Theorem autocommit_ignored db user passwd host port (a1 a2 : bool) :
  get_db_connection db user passwd host port a1 =
  get_db_connection db user passwd host port a2.
Proof. reflexivity. Qed.

(** C1, witness: the stored client saved when the clock reads 200. *)
Lemma save_stamps_updated_witness :
  let out := save Client false acme_loaded world_later in
  Client ∈ models ∧
  out = (Ok 1, out.1.2, out.2) ∧
  _data out.1.2 !! "updated" = Some (VDateTime 200).
Proof.
  intros out.
  assert (Hm : Client ∈ models) by (unfold models; repeat constructor).
  assert (Hs : out = (Ok 1, out.1.2, out.2)) by (vm_compute; reflexivity).
  split; [exact Hm|]. split; [exact Hs|].
  exact (proj1 (save_stamps_updated Client false acme_loaded world_later 1
                  out.1.2 out.2 Hm Hs)).
Defined.

(** C2, witness: [PERSONAL_LOAN], the tenth name of [AccountTypeField]. *)
Lemma enum_roundtrip_canonical_witness :
  AccountTypeField ∈ enum_fields ∧
  (enum_body AccountTypeField !! 9%nat) = Some ("PERSONAL_LOAN", 70) ∧
  ∃ (i : nat) n0,
    (i ≤ 9)%nat ∧ enum_body AccountTypeField !! i = Some (n0, 70) ∧
    (∀ (j : nat) n' c', (j < i)%nat →
       enum_body AccountTypeField !! j = Some (n', c') → c' ≠ 70) ∧
    python_value AccountTypeField (db_value (VText "PERSONAL_LOAN"))
      = Ok (VMember (Member "AccountTypeField" n0 70)) ∧
    (i = 9%nat → n0 = "PERSONAL_LOAN").
Proof.
  assert (Hc : AccountTypeField ∈ enum_fields)
    by (unfold enum_fields; repeat constructor).
  split; [exact Hc|]. split; [reflexivity|].
  exact (enum_roundtrip_canonical AccountTypeField 9 "PERSONAL_LOAN" 70 Hc eq_refl).
Defined.

(** C3, witness: ["ARCHIVED"] is not a name of [StatusField]. *)
Lemma enum_decode_undeclared_witness :
("ARCHIVED" ∉ enum_names StatusField) ∧
  python_value StatusField (VText "ARCHIVED") = Raise (KeyError "ARCHIVED") ∧
  python_value StatusField VNone = Ok VNone ∧
  db_value VNone = VNone.
Proof.
  assert (Hs : "ARCHIVED" ∉ enum_names StatusField)
    by (apply (bool_decide_unpack _); vm_compute; exact I).
  split; [exact Hs|].
  exact (enum_decode_undeclared StatusField "ARCHIVED" Hs).
Defined.

(** C4, witness: creating the client "Acme Bank" in an empty database. *)
Lemma create_get_roundtrip_witness :
  let out := create Client acme world0 in
  Client ∈ models ∧
  out = (Ok (returned out.1), out.2) ∧
  ∃ pk,
    _data (returned out.1) !! "id" = Some (VInt pk) ∧
    (∀ f v, f ∈ fields Client → f_name f ≠ "updated" →
            acme !! f_name f = Some v →
            _data (returned out.1) !! f_name f = Some v) ∧
    (∀ f v, f ∈ fields Client → acme !! f_name f = None →
            f_default f = Some (DefaultValue v) →
            _data (returned out.1) !! f_name f = Some v) ∧
    _data (returned out.1) !! "updated" = Some (VDateTime 102) ∧
    (∀ inst', get Client pk out.2 = Ok inst' →
       _data inst' !! "id" = Some (VInt pk) ∧
       _data inst' !! "updated" = Some (VDateTime 102) ∧
       (∀ f v, f ∈ fields Client → f_name f ≠ "updated" →
               acme !! f_name f = Some v →
               ∃ v', _data inst' !! f_name f = Some v' ∧ reloads_as (f_type f) v v') ∧
       (∀ f v, f ∈ fields Client → _data (returned out.1) !! f_name f = Some v →
               ∃ v', _data inst' !! f_name f = Some v' ∧ reloads_as (f_type f) v v')) ∧
    ((∀ f cls v, f ∈ fields Client → f_type f = EnumField cls →
        acme !! f_name f = Some v →
        v = VNone ∨ coerce_to_unicode v ∈ enum_names cls) →
     ∃ inst', get Client pk out.2 = Ok inst') ∧
    ((∀ f cls v, f ∈ fields Client → f_type f = EnumField cls →
        _data (returned out.1) !! f_name f = Some v →
        v = VNone ∨ coerce_to_unicode v ∈ enum_names cls) →
     ∃ inst', get Client pk out.2 = Ok inst').
Proof.
  intros out.
  assert (Hm : Client ∈ models) by (unfold models; repeat constructor).
  assert (Hc : out = (Ok (returned out.1), out.2)) by (vm_compute; reflexivity).
  split; [exact Hm|]. split; [exact Hc|].
  exact (create_get_roundtrip Client acme world0 (returned out.1) out.2 Hm Hc).
Defined.



(** C7, witness: creating the client "Acme Bank" without timestamps or
    status. *)
Lemma creation_defaults_witness :
  let out := create Client acme world0 in
  Client ∈ models ∧
  acme !! "inserted" = None ∧
  acme !! "updated" = None ∧
  _data (new Client acme world0).1 !! "inserted" = Some (VDateTime 100) ∧
  _data (new Client acme world0).1 !! "updated" = Some (VDateTime 101) ∧
  _data (new Client acme world0).1 !! "status" = Some (VText "PENDING") ∧
  out = (Ok (returned out.1), out.2) ∧
  ∃ (i j : nat) pk r,
    (ticks world0 ≤ i < ticks out.2)%nat ∧ (ticks world0 ≤ j < ticks out.2)%nat ∧
    _data (returned out.1) !! "id" = Some (VInt pk) ∧
    table_of out.2 (db_table Client) !! pk = Some r ∧
    _data (returned out.1) !! "inserted" = Some (VDateTime (clock world0 i)) ∧
    r !! "inserted" = Some (VDateTime (clock world0 i)) ∧
    _data (returned out.1) !! "updated" = Some (VDateTime (clock world0 j)) ∧
    r !! "updated" = Some (VDateTime (clock world0 j)) ∧
    (Client = Client ∨ Client = ClientConfig → acme !! "status" = None →
       _data (returned out.1) !! "status" = Some (VText "PENDING") ∧
       r !! "status" = Some (VText "PENDING")).
Proof.
  intros out.
  assert (Hm : Client ∈ models) by (unfold models; repeat constructor).
  assert (Hi : acme !! "inserted" = None) by (vm_compute; reflexivity).
  assert (Hu : acme !! "updated" = None) by (vm_compute; reflexivity).
  assert (Hc : out = (Ok (returned out.1), out.2)) by (vm_compute; reflexivity).
  split; [exact Hm|]. split; [exact Hi|]. split; [exact Hu|].
  split; [vm_compute; reflexivity|]. split; [vm_compute; reflexivity|].
  split; [vm_compute; reflexivity|]. split; [exact Hc|].
  exact (proj2 (creation_defaults Client acme world0 Hm Hi Hu)
           (returned out.1) out.2 Hc).
Defined.

(** C10, witness: inserting a second client with a title already taken. *)
Lemma save_failure_keeps_stamp_witness :
  let out := save Client true acme_again world_later in
  out = (Raise (IntegrityError "title"), out.1.2, out.2) ∧
  _data out.1.2 !! "updated" = Some (VDateTime 200) ∧
  "updated" ∈ _dirty out.1.2 ∧
  (∀ name, name ≠ "updated" → _data out.1.2 !! name = _data acme_again !! name) ∧
  tables out.2 = tables world_later.
Proof.
  intros out.
  assert (Hs : out = (Raise (IntegrityError "title"), out.1.2, out.2))
    by (vm_compute; reflexivity).
  split; [exact Hs|].
  exact (save_failure_keeps_stamp Client true acme_again world_later
           (IntegrityError "title") out.1.2 out.2 Hs).
Defined.

(** * Further properties *)

(** *** Decoding names *)

Lemma python_value_text cls s :
  python_value cls (VText s) =
  match declared_code (enum_body cls) s with
  | Some c =>
      match canonical_name (enum_body cls) c with
      | Some n => Ok (VMember (Member (enum_name cls) n c))
      | None => Raise (KeyError s)
      end
  | None => Raise (KeyError s)
  end.
Proof.
  unfold python_value, enum_getitem, member_map; simpl.
  destruct (declared_code _ _) as [c|]; simpl; [|done].
  by destruct (canonical_name _ _).
Qed.

(** X1.  [python_value] returns a member for a stored text exactly when
    the text is a declared name of the enum field. *)
Theorem python_value_declared_iff cls s :
  (∃ m, python_value cls (VText s) = Ok (VMember m)) ↔ s ∈ enum_names cls.
Proof.
  split.
  - intros [m Hm]. rewrite python_value_text in Hm.
    destruct (declared_code (enum_body cls) s) as [c|] eqn:Hc; [|done].
    apply declared_code_Some in Hc. unfold enum_names.
    apply list_elem_of_fmap. by exists (s, c).
  - intros Hs. rewrite python_value_text.
    destruct (declared_code (enum_body cls) s) as [c|] eqn:Hc.
    + destruct (canonical_name_declared _ _ _ (declared_code_Some _ _ _ Hc)) as [n ->].
      eauto.
    + by apply declared_code_None in Hc.
Qed.

Lemma canonical_name_code body c n :
  canonical_name body c = Some n → (n, c) ∈ body.
Proof.
  induction body as [|[n' c'] rest IH]; simpl; [done|].
  case_decide as Hc.
  - intros [= <-]. subst. left.
  - intros H. right. auto.
Qed.

(** X2.  Names are told apart by their codes only. *)
Theorem python_value_same_code cls a b :
  a ∈ enum_names cls → b ∈ enum_names cls →
  (python_value cls (VText a) = python_value cls (VText b) ↔
   declared_code (enum_body cls) a = declared_code (enum_body cls) b).
Proof.
  intros Ha Hb. rewrite !python_value_text.
  destruct (declared_code (enum_body cls) a) as [ca|] eqn:Hca;
    [|by apply declared_code_None in Hca].
  destruct (declared_code (enum_body cls) b) as [cb|] eqn:Hcb;
    [|by apply declared_code_None in Hcb].
  destruct (canonical_name_declared _ _ _ (declared_code_Some _ _ _ Hca)) as [na Hna].
  destruct (canonical_name_declared _ _ _ (declared_code_Some _ _ _ Hcb)) as [nb Hnb].
  rewrite Hna, Hnb. split.
  - intros [= _ ->]. done.
  - intros [= ->]. congruence.
Qed.

Lemma enum_members_elem cls n c :
  canonical_name (enum_body cls) c = Some n →
  Member (enum_name cls) n c ∈ enum_members cls.
Proof.
  intros Hn. unfold enum_members. apply list_elem_of_omap.
  exists (n, c). split; [by apply canonical_name_code|].
  simpl. by rewrite decide_True.
Qed.

(** X3.  What is decoded is a member proper, never an alias, and its own name
    decodes to it again. *)
Theorem python_value_member cls s m :
  NoDup (enum_names cls) →
  python_value cls (VText s) = Ok (VMember m) →
  m ∈ enum_members cls ∧
  declared_code (enum_body cls) s = Some (m_value m) ∧
  python_value cls (VText (m_name m)) = Ok (VMember m).
Proof.
  intros Hnd Hm. rewrite python_value_text in Hm.
  destruct (declared_code (enum_body cls) s) as [c|] eqn:Hc; [|done].
  destruct (canonical_name (enum_body cls) c) as [n|] eqn:Hn; [|done].
  injection Hm as <-. split_and!; [by apply enum_members_elem | done |].
  rewrite python_value_text. cbn [m_name].
  pose proof (canonical_name_code _ _ _ Hn) as Hin.
  apply list_elem_of_lookup in Hin as [k Hk].
  rewrite (declared_code_lookup _ k n c Hnd Hk). by rewrite Hn.
Qed.

Lemma enum_members_values cls m1 m2 :
  m1 ∈ enum_members cls → m2 ∈ enum_members cls →
  m_value m1 = m_value m2 → m1 = m2.
Proof.
  unfold enum_members. intros H1 H2 Hv.
  apply list_elem_of_omap in H1 as ([n1 c1] & _ & H1).
  apply list_elem_of_omap in H2 as ([n2 c2] & _ & H2).
  simpl in *. repeat case_decide; simplify_eq. simpl in *. congruence.
Qed.

(** X4.  Encoding twice is encoding once: [db_value] returns null for
    null and text for anything else, and leaves its own results as they
    are. *)
Theorem db_value_idempotent v :
  db_value (db_value v) = db_value v ∧
  (db_value v = VNone ↔ v = VNone) ∧
  (v ≠ VNone → ∃ s, db_value v = VText s).
Proof.
  split_and!.
  - by destruct v.
  - apply db_value_None.
  - intros Hv. destruct v; [done|eauto..].
Qed.

(** *** What a save does to the tables *)

Lemma db_insert_tables m fd w r w' :
  db_insert m fd w = (r, w') →
  tables w' = tables w ∨
  ∃ pk, r = Ok pk ∧
        check_row (tables w) (db_table m) pk (encode_row m fd) (fields m) = Ok () ∧
        table_of w (db_table m) !! pk = None ∧
        tables w' = <[db_table m := <[pk := encode_row m fd]> (table_of w (db_table m))]> (tables w).
Proof.
  unfold db_insert. intros H.
  destruct (fd !! "id") as [[]|] eqn:Hid; simpl in H;
    repeat case_match; simplify_eq; simpl; auto;
    right; eexists; (split_and!; [done | by destruct (check_row _ _ _ _ _) as [[]|] | | done]);
    match goal with
    | Hb : bool_decide _ = false |- _ =>
        apply bool_decide_eq_false in Hb; by apply eq_None_not_Some
    end.
Qed.

Lemma db_update_tables m pk fd w r w' :
  db_update m pk fd w = (r, w') →
  tables w' = tables w ∨
  ∃ old, table_of w (db_table m) !! pk = Some old ∧
         check_row (tables w) (db_table m) pk (encode_row m fd ∪ old) (fields m) = Ok () ∧
         tables w' = <[db_table m := <[pk := encode_row m fd ∪ old]> (table_of w (db_table m))]> (tables w).
Proof.
  unfold db_update. intros H.
  destruct (table_of w (db_table m) !! pk) as [old|] eqn:Hold.
  - destruct (check_row _ _ _ _ _) as [[]|] eqn:Hck; simplify_eq; simpl; eauto.
  - simplify_eq. by left.
Qed.

(** Every save leaves the tables as they were or stores one row that
    passed the checks of the database. *)
Lemma save_tables m fi self w r self' w' :
  save m fi self w = (r, self', w') →
  tables w' = tables w ∨
  ∃ pk new,
    check_row (tables w) (db_table m) pk new (fields m) = Ok () ∧
    tables w' = <[db_table m := <[pk := new]> (table_of w (db_table m))]> (tables w).
Proof.
  rewrite save_unfold. unfold Model_save. intros H.
  repeat case_match; simplify_eq;
    match goal with
    | Hu : db_update _ _ _ _ = _ |- _ =>
        apply db_update_tables in Hu as [?|(old & _ & ? & ?)]; eauto
    | Hi : db_insert _ _ _ = _ |- _ =>
        apply db_insert_tables in Hi as [?|(pk & _ & ? & _ & ?)]; eauto
    end.
Qed.

Lemma create_tables m kwargs w r w' :
  create m kwargs w = (r, w') →
  tables w' = tables w ∨
  ∃ pk new,
    check_row (tables w) (db_table m) pk new (fields m) = Ok () ∧
    tables w' = <[db_table m := <[pk := new]> (table_of w (db_table m))]> (tables w).
Proof.
  unfold create, new. destruct (default_dict (fields m) w) as [d w1] eqn:Hd.
  assert (Ht : tables w1 = tables w).
  { clear -Hd. revert d w w1 Hd. induction (fields m) as [|f fs IH]; simpl; intros d w w1 Hd.
    - by simplify_eq.
    - destruct (f_default f) as [[v|]|].
      + destruct (default_dict fs w) as [d' w''] eqn:Hd'. simplify_eq. eauto.
      + destruct (default_dict fs _) as [d' w''] eqn:Hd'. simplify_eq.
        by apply IH in Hd'.
      + eauto. }
  destruct (save m true _ w1) as [[[rows|e] self'] w2] eqn:Hs; intros [= <- <-];
    apply save_tables in Hs; unfold table_of in *; rewrite Ht in Hs; exact Hs.
Qed.

(** *** Invariants of the tables *)

Lemma models_table_inj m1 m2 :
  m1 ∈ models → m2 ∈ models → db_table m1 = db_table m2 → m1 = m2.
Proof.
  intros H1 H2. revert m1 H1 m2 H2.
  apply (models_cases (fun m1 => ∀ m2, m2 ∈ models → db_table m1 = db_table m2 → m1 = m2));
    (intros m2 H2; pattern m2; revert m2 H2; apply models_cases;
     intros H; first [ reflexivity | discriminate H ]).
Qed.

Lemma table_in_insert_eq tbls t tbl : table_in (<[t := tbl]> tbls) t = tbl.
Proof. unfold table_in. by rewrite lookup_insert_eq. Qed.

Lemma table_in_insert_ne tbls t t' tbl :
  t ≠ t' → table_in (<[t := tbl]> tbls) t' = table_in tbls t'.
Proof. intros. unfold table_in. by rewrite lookup_insert_ne. Qed.

Lemma check_field_unique tbls table pk r f v :
  check_field tbls table pk r f = Ok () → f_unique f = true →
  r !! f_name f = Some v → v ≠ VNone →
  ¬ taken (table_in tbls table) pk (f_name f) v.
Proof.
  unfold check_field. intros Hck Hu Hr Hv Ht. rewrite Hr, Hu in Hck. simpl in Hck.
  destruct v; try done; rewrite (bool_decide_eq_true_2 _ Ht) in Hck;
    by destruct (column_accepts _ _).
Qed.

Lemma check_field_reference tbls table pk r f rel to k :
  check_field tbls table pk r f = Ok () → f_type f = ForeignKeyField rel to →
  r !! f_name f = Some (VInt k) →
  is_Some (table_in tbls rel !! k).
Proof.
  unfold check_field. intros Hck Ht Hr. rewrite Hr, Ht in Hck. simpl in Hck.
  destruct (f_unique f && _); [done|].
  destruct (bool_decide (is_Some (table_in tbls rel !! k))) eqn:Hb; [|done].
  by apply bool_decide_eq_true in Hb.
Qed.

Lemma unique_ok_store tbls m pk new :
  m ∈ models → unique_ok tbls →
  check_row tbls (db_table m) pk new (fields m) = Ok () →
  unique_ok (<[db_table m := <[pk := new]> (table_in tbls (db_table m))]> tbls).
Proof.
  intros Hm Hok Hck m' f Hm' Hf Hu k1 k2 r1 r2 v H1 H2 Hv1 Hv2 Hv.
  destruct (decide (db_table m = db_table m')) as [Heq|Hne].
  - pose proof (models_table_inj _ _ Hm Hm' Heq) as <-.
    rewrite table_in_insert_eq in H1, H2.
    pose proof (check_row_field _ _ _ _ _ _ Hck Hf) as Hcf.
    destruct (decide (k1 = pk)) as [->|Hk1], (decide (k2 = pk)) as [->|Hk2]; [done|..].
    + rewrite lookup_insert_eq in H1. rewrite lookup_insert_ne in H2 by done.
      simplify_eq. exfalso.
      eapply check_field_unique; [done..|]. exists k2, r2. done.
    + rewrite lookup_insert_eq in H2. rewrite lookup_insert_ne in H1 by done.
      simplify_eq. exfalso.
      eapply check_field_unique; [done..|]. exists k1, r1. done.
    + rewrite lookup_insert_ne in H1, H2 by done. by eapply (Hok m f).
  - rewrite table_in_insert_ne in H1, H2 by done. by eapply (Hok m' f).
Qed.

Lemma table_in_store_mono tbls t pk new t' k :
  is_Some (table_in tbls t' !! k) →
  is_Some (table_in (<[t := <[pk := new]> (table_in tbls t)]> tbls) t' !! k).
Proof.
  intros Hk. destruct (decide (t = t')) as [->|Hne].
  - rewrite table_in_insert_eq. destruct (decide (pk = k)) as [->|?].
    + rewrite lookup_insert_eq. eauto.
    + by rewrite lookup_insert_ne.
  - by rewrite table_in_insert_ne.
Qed.

Lemma references_ok_store tbls m pk new :
  m ∈ models → references_ok tbls →
  check_row tbls (db_table m) pk new (fields m) = Ok () →
  references_ok (<[db_table m := <[pk := new]> (table_in tbls (db_table m))]> tbls).
Proof.
  intros Hm Hok Hck m' f rel to pk' r k Hm' Hf Ht Hr Hk.
  apply table_in_store_mono.
  destruct (decide (db_table m = db_table m')) as [Heq|Hne].
  - pose proof (models_table_inj _ _ Hm Hm' Heq) as <-.
    rewrite table_in_insert_eq in Hr.
    destruct (decide (pk' = pk)) as [->|Hpk].
    + rewrite lookup_insert_eq in Hr. simplify_eq.
      eapply check_field_reference; [by eapply check_row_field | done..].
    + rewrite lookup_insert_ne in Hr by done. by eapply (Hok m f).
  - rewrite table_in_insert_ne in Hr by done. by eapply (Hok m' f).
Qed.

Lemma save_keeps_unique m fi self w r self' w' :
  m ∈ models → unique_ok (tables w) →
  save m fi self w = (r, self', w') →
  unique_ok (tables w').
Proof.
  intros Hm Hok Hs. apply save_tables in Hs as [->|(pk & new & Hck & ->)]; [done|].
  by apply unique_ok_store.
Qed.

Lemma save_keeps_references m fi self w r self' w' :
  m ∈ models → references_ok (tables w) →
  save m fi self w = (r, self', w') →
  references_ok (tables w').
Proof.
  intros Hm Hok Hs. apply save_tables in Hs as [->|(pk & new & Hck & ->)]; [done|].
  by apply references_ok_store.
Qed.

Lemma create_keeps_unique m kwargs w r w' :
  m ∈ models → unique_ok (tables w) →
  create m kwargs w = (r, w') → unique_ok (tables w').
Proof.
  intros Hm Hok Hs. apply create_tables in Hs as [->|(pk & new & Hck & ->)]; [done|].
  by apply unique_ok_store.
Qed.

Lemma create_keeps_references m kwargs w r w' :
  m ∈ models → references_ok (tables w) →
  create m kwargs w = (r, w') → references_ok (tables w').
Proof.
  intros Hm Hok Hs. apply create_tables in Hs as [->|(pk & new & Hck & ->)]; [done|].
  by apply references_ok_store.
Qed.

(** *** Saves that the database rejects *)

Lemma check_row_Raise tbls table pk r fs f e :
  f ∈ fs → check_field tbls table pk r f = Raise e →
  ∃ e', check_row tbls table pk r fs = Raise e'.
Proof.
  induction fs as [|g rest IH]; simpl; intros Hin Hf.
  - by apply elem_of_nil in Hin.
  - destruct (check_field tbls table pk r g) as [[]|e'] eqn:Hg; simpl; [|eauto].
    apply elem_of_cons in Hin as [->|Hin]; [congruence | auto].
Qed.

Lemma db_insert_rejected m fd w f e :
  f ∈ fields m →
  (∀ pk, check_field (tables w) (db_table m) pk (encode_row m fd) f = Raise e) →
  ∃ e' w', db_insert m fd w = (Raise e', w') ∧ tables w' = tables w.
Proof.
  intros Hf Hck.
  destruct (db_insert m fd w) as [[pk|e'] w'] eqn:Hi.
  - apply db_insert_Ok in Hi as (_ & Hrow & _).
    destruct (check_row_Raise _ _ _ _ _ _ _ Hf (Hck pk)) as [e' He']. congruence.
  - exists e', w'. split; [done|]. by apply db_insert_Raise in Hi as [? _].
Qed.

Lemma create_unfold m kwargs w :
  create m kwargs w =
  let '(d, w1) := default_dict (fields m) w in
  match db_insert m (<["updated" := VDateTime (clock w1 (ticks w1))]> (kwargs ∪ d))
                  (DT_now w1).2 with
  | (Ok pk, w2) =>
      (Ok (Instance (<["id" := VInt pk]>
                       (<["updated" := VDateTime (clock w1 (ticks w1))]> (kwargs ∪ d))) ∅),
       w2)
  | (Raise e, w2) => (Raise e, w2)
  end.
Proof.
  unfold create, new. destruct (default_dict (fields m) w) as [d w1].
  rewrite save_unfold. unfold Model_save, save_dict. simpl.
  destruct (_ !! "id") as [[]|]; by destruct (db_insert _ _ _) as [[pk|e] w2].
Qed.

Lemma default_dict_tables fs w d w1 :
  default_dict fs w = (d, w1) → tables w1 = tables w.
Proof.
  revert d w w1. induction fs as [|f fs IH]; simpl; intros d w w1 Hd.
  - by simplify_eq.
  - destruct (f_default f) as [[v|]|].
    + destruct (default_dict fs w) as [d' w''] eqn:Hd'. simplify_eq. eauto.
    + destruct (default_dict fs _) as [d' w''] eqn:Hd'. simplify_eq.
      by apply IH in Hd'.
    + eauto.
Qed.

Lemma default_dict_lookup fs w d w1 name v :
  default_dict fs w = (d, w1) → d !! name = Some v →
  ∃ f, f ∈ fs ∧ f_name f = name ∧ f_default f ≠ None.
Proof.
  revert d w w1. induction fs as [|f fs IH]; simpl; intros d w w1 Hd Hv.
  - by simplify_eq.
  - destruct (f_default f) as [[v'|]|] eqn:Hdef.
    + destruct (default_dict fs w) as [d' w''] eqn:Hd'. simplify_eq.
      destruct (decide (f_name f = name)) as [Hn|Hn].
      * exists f. split_and!; [left | done | congruence].
      * rewrite lookup_insert_ne in Hv by done.
        destruct (IH _ _ _ Hd' Hv) as (g & ? & ? & ?). exists g. split_and!; [by right|done..].
    + destruct (default_dict fs _) as [d' w''] eqn:Hd'. simplify_eq.
      destruct (decide (f_name f = name)) as [Hn|Hn].
      * exists f. split_and!; [left | done | congruence].
      * rewrite lookup_insert_ne in Hv by done.
        destruct (IH _ _ _ Hd' Hv) as (g & ? & ? & ?). exists g. split_and!; [by right|done..].
    + destruct (IH _ _ _ Hd Hv) as (g & ? & ? & ?). exists g. split_and!; [by right|done..].
Qed.

Lemma fields_name_inj fs f g :
  NoDup (f_name <$> fs) → f ∈ fs → g ∈ fs → f_name f = f_name g → f = g.
Proof.
  intros Hnd Hf Hg Hn.
  pose proof (get_field_In _ _ Hnd Hf) as H1.
  pose proof (get_field_In _ _ Hnd Hg) as H2.
  rewrite Hn in H1. congruence.
Qed.

Lemma field_db_value_None t : field_db_value t VNone = VNone.
Proof. destruct t as [| | | | |? ? []| |]; done. Qed.

(** X10.  A record that lacks a value for a field declared [null=False] without
    default is not created. *)
Theorem create_requires_field m f kwargs w :
  m ∈ models → f ∈ fields m →
  f_null f = false → f_default f = None →
  kwargs !! f_name f = None ∨ kwargs !! f_name f = Some VNone →
  ∃ e w', create m kwargs w = (Raise e, w') ∧ tables w' = tables w.
Proof.
  intros Hm Hf Hnull Hdef Hk.
  pose proof (models_NoDup m Hm) as Hnd.
  rewrite create_unfold.
  destruct (default_dict (fields m) w) as [d w1] eqn:Hd.
  assert (Hdn : d !! f_name f = None).
  { apply eq_None_not_Some. intros [v Hv].
    destruct (default_dict_lookup _ _ _ _ _ _ Hd Hv) as (g & Hg & Hn & Hgd).
    by rewrite (fields_name_inj _ _ _ Hnd Hg Hf Hn) in Hgd. }
  assert (Hne : f_name f ≠ "updated").
  { intros Hn. pose proof (get_field_In _ _ Hnd Hf) as Hgf.
    rewrite Hn, (models_updated m Hm) in Hgf. by simplify_eq. }
  set (data := <["updated" := VDateTime (clock w1 (ticks w1))]> (kwargs ∪ d)).
  assert (Hrow : default VNone (encode_row m data !! f_name f) = VNone).
  { rewrite encode_row_lookup. unfold data. rewrite lookup_insert_ne by done.
    destruct Hk as [Hk|Hk].
    - by rewrite lookup_union_r, Hdn.
    - rewrite (lookup_union_Some_l _ _ _ _ Hk). simpl.
      rewrite (get_field_In _ _ Hnd Hf). simpl. by rewrite field_db_value_None. }
  destruct (db_insert_rejected m data (DT_now w1).2 f (IntegrityError (f_name f)) Hf)
    as (e & w2 & -> & Ht).
  { intros pk. unfold check_field. by rewrite Hrow, Hnull. }
  exists e, w2. split; [done|]. rewrite Ht. simpl. by eapply default_dict_tables.
Qed.

(** X11.  A record whose foreign key names no row of the table it refers to is
    not created. *)
Theorem create_requires_parent m f rel to k kwargs w :
  m ∈ models → f ∈ fields m →
  f_type f = ForeignKeyField rel to →
  kwargs !! f_name f = Some (VInt k) →
  table_of w rel !! k = None →
  ∃ e w', create m kwargs w = (Raise e, w') ∧ tables w' = tables w.
Proof.
  intros Hm Hf Hty Hk Hrel.
  pose proof (models_NoDup m Hm) as Hnd.
  rewrite create_unfold.
  destruct (default_dict (fields m) w) as [d w1] eqn:Hd.
  pose proof (default_dict_tables _ _ _ _ Hd) as Ht1.
  assert (Hne : f_name f ≠ "updated").
  { intros Hn. pose proof (get_field_In _ _ Hnd Hf) as Hgf.
    rewrite Hn, (models_updated m Hm) in Hgf. simplify_eq. }
  set (data := <["updated" := VDateTime (clock w1 (ticks w1))]> (kwargs ∪ d)).
  assert (Hrow : encode_row m data !! f_name f = Some (VInt k)).
  { rewrite (encode_row_field m data f (VInt k) Hnd Hf); [by rewrite Hty|].
    unfold data. rewrite lookup_insert_ne by done. by apply lookup_union_Some_l. }
  destruct (db_insert_rejected m data (DT_now w1).2 f (IntegrityError (f_name f)) Hf)
    as (e & w2 & -> & Ht).
  { intros pk. unfold check_field. rewrite Hrow, Hty. simpl.
    destruct (f_unique f && _); [done|].
    rewrite bool_decide_eq_false_2; [done|].
    unfold table_of in Hrel. rewrite Ht1, Hrel. by intros [? ?]. }
  exists e, w2. split; [done|]. by rewrite Ht.
Qed.

Lemma default_dict_id m w d w1 :
  m ∈ models → default_dict (fields m) w = (d, w1) → d !! "id" = None.
Proof.
  intros Hm Hd. apply eq_None_not_Some. intros [v Hv].
  destruct (default_dict_lookup _ _ _ _ _ _ Hd Hv) as (g & Hg & Hn & _).
  by eapply models_id.
Qed.

(** X12.  A second record with a title already stored is not created. *)
Theorem create_duplicate_title m kwargs w t k r :
  m = Client ∨ m = EventType →
  kwargs !! "title" = Some (VText t) →
  kwargs !! "id" = None →
  table_of w (db_table m) !! k = Some r →
  r !! "title" = Some (VText t) →
  ∃ what w', create m kwargs w = (Raise (IntegrityError what), w') ∧
             tables w' = tables w.
Proof.
  intros Hm Ht Hid Hk Hr.
  assert (Hmm : m ∈ models)
    by (destruct Hm as [-> | ->]; unfold models; repeat constructor).
  rewrite create_unfold.
  destruct (default_dict (fields m) w) as [d w1] eqn:Hd.
  pose proof (default_dict_tables _ _ _ _ Hd) as Ht1.
  pose proof (default_dict_id _ _ _ _ Hmm Hd) as Hdid.
  set (data := <["updated" := VDateTime (clock w1 (ticks w1))]> (kwargs ∪ d)).
  assert (Hdata : data !! "id" = None).
  { unfold data. rewrite lookup_insert_ne by done. by rewrite lookup_union_r. }
  assert (Htitle : encode_row m data !! "title" = Some (VText t)).
  { rewrite encode_row_lookup. unfold data. rewrite lookup_insert_ne by done.
    rewrite (lookup_union_Some_l _ _ _ _ Ht). by destruct Hm as [-> | ->]. }
  unfold db_insert. rewrite Hdata.
  destruct (nextval (pk_sequence m) (DT_now w1).2) as [pk w2] eqn:Hnv.
  assert (Ht2 : tables w2 = tables w)
    by (unfold nextval in Hnv; simplify_eq; done).
  case_bool_decide as Hpk; [eexists _, _; split; [done|]; simpl; congruence|].
  assert (Hck : check_row (tables (DT_now w1).2) (db_table m) pk (encode_row m data) (fields m)
                = Raise (IntegrityError "title")).
  { assert (Htaken : taken (table_in (tables w1) (db_table m)) pk "title" (VText t)).
    { exists k, r. rewrite Ht1. split; [done|]. split; [|done].
      intros ->. apply Hpk. simpl. unfold table_of. rewrite Ht1. eauto. }
    destruct Hm as [-> | ->]; simpl; unfold check_field; simpl;
      rewrite Htitle; simpl; by rewrite (bool_decide_eq_true_2 _ Htaken). }
  rewrite Hck. eexists _, _; split; [done|]. simpl. congruence.
Qed.

Lemma field_python_value_Raise t v e :
  field_python_value t v = Raise e → ∃ key, e = KeyError key.
Proof.
  destruct t; simpl; try done.
  unfold python_value, enum_getitem. destruct v; try done;
    destruct (member_map _ _); simpl; intros [= <-]; eauto.
Qed.

Lemma decode_row_Raise fs r e :
  decode_row fs r = Raise e → ∃ key, e = KeyError key.
Proof.
  induction fs as [|f fs IH]; simpl; [done|].
  destruct (field_python_value (f_type f) _) as [v|e'] eqn:Hv; simpl.
  - destruct (decode_row fs r) as [d|e'']; simpl; [done|].
    intros [= <-]. auto.
  - intros [= <-]. by eapply field_python_value_Raise.
Qed.

(** X13.  The set of names is enforced when a row is read, not when it is
    written: a record created with an undeclared text in an enum field is
    stored, and cannot be reloaded. *)
Theorem undeclared_name_stored_not_reloaded m f cls s kwargs w inst w' :
  m ∈ models → f ∈ fields m →
  f_type f = EnumField cls →
  kwargs !! f_name f = Some (VText s) →
  s ∉ enum_names cls →
  create m kwargs w = (Ok inst, w') →
  ∃ pk r key,
    _data inst !! "id" = Some (VInt pk) ∧
    table_of w' (db_table m) !! pk = Some r ∧
    r !! f_name f = Some (VText s) ∧
    get m pk w' = Raise (KeyError key).
Proof.
  intros Hm Hf Hty Hk Hs Hc.
  pose proof (models_NoDup m Hm) as Hnd.
  apply create_Ok in Hc as (d & w1 & pk & _ & -> & Hrow & _).
  assert (Hne : f_name f ≠ "updated").
  { intros Hn. pose proof (get_field_In _ _ Hnd Hf) as Hgf.
    rewrite Hn, (models_updated m Hm) in Hgf. simplify_eq. }
  set (data := <["updated" := VDateTime (clock w1 (ticks w1))]> (kwargs ∪ d)) in *.
  assert (Hcol : encode_row m data !! f_name f = Some (VText s)).
  { rewrite (encode_row_field m data f (VText s) Hnd Hf); [by rewrite Hty|].
    unfold data. rewrite lookup_insert_ne by done. by apply lookup_union_Some_l. }
  destruct (decode_row (fields m) (encode_row m data)) as [d'|e] eqn:Hd.
  - destruct (decode_row_field _ _ _ f Hnd Hd Hf) as (v & _ & Hv).
    rewrite Hcol, Hty in Hv. change (python_value cls (VText s) = Ok v) in Hv.
    rewrite python_value_text in Hv.
    apply declared_code_None in Hs. by rewrite Hs in Hv.
  - destruct (decode_row_Raise _ _ _ Hd) as [key ->].
    exists pk, (encode_row m data), key. simpl.
    split_and!; [apply lookup_insert_eq | done | done |].
    by rewrite (get_created _ _ _ _ Hrow), Hd.
Qed.

(** *** The stamp *)

Lemma setattr_setattr self name v v' :
  setattr (setattr self name v) name v' = setattr self name v'.
Proof.
  unfold setattr. simpl. f_equal.
  - apply insert_insert_eq.
  - by rewrite (assoc_L (∪)), (idemp_L (∪)).
Qed.

(** X7.  A value assigned to [updated] before a save, or supplied for it at
    creation, is never persisted: the outcome is that of the same call
    without it. *)
Theorem explicit_updated_discarded m fi self kwargs w v :
  save m fi (setattr self "updated" v) w = save m fi self w ∧
  (m ∈ models → create m (<["updated" := v]> kwargs) w = create m kwargs w).
Proof.
  split.
  - by rewrite !save_unfold, setattr_setattr.
  - intros Hm. unfold create, new.
    destruct (default_dict (fields m) w) as [d w1] eqn:Hd.
    rewrite !save_unfold.
    assert (Heq : setattr (Instance (<["updated" := v]> kwargs ∪ d)
                                    (dom (<["updated" := v]> kwargs ∪ d)))
                          "updated" (VDateTime (clock w1 (ticks w1)))
                  = setattr (Instance (kwargs ∪ d) (dom (kwargs ∪ d)))
                            "updated" (VDateTime (clock w1 (ticks w1)))).
    { unfold setattr. simpl. f_equal.
      - by rewrite <- insert_union_l, insert_insert_eq.
      - rewrite <- insert_union_l, dom_insert_L.
        by rewrite (assoc_L (∪)), (idemp_L (∪)). }
    by rewrite Heq.
Qed.

(** X8.  A save assigns [updated], and [id] when it inserts; every other field
    of the record in memory is as before, whatever the outcome, and the
    clock is read exactly once. *)
Theorem save_frame m fi self w r self' w' :
  save m fi self w = (r, self', w') →
  (∀ name, name ≠ "updated" → name ≠ "id" →
           _data self' !! name = _data self !! name) ∧
  (∀ k, _data self !! "id" = Some (VInt k) → fi = false →
        _data self' !! "id" = Some (VInt k)) ∧
  clock w' = clock w ∧ ticks w' = S (ticks w).
Proof.
  intros Hs. destruct (save_clock _ _ _ _ _ _ _ Hs) as [Hc Ht].
  split_and!; try done; rewrite save_unfold in Hs; destruct r as [rows|e].
  - intros name Hu Hi.
    apply Model_save_Ok in Hs as [(pk & _ & _ & _ & ->)|(pk & _ & _ & -> & _)]; simpl;
      by rewrite ?lookup_insert_ne by done.
  - intros name Hu Hi. apply Model_save_Raise in Hs as (-> & _). simpl.
    by rewrite lookup_insert_ne.
  - intros k Hk ->.
    apply Model_save_Ok in Hs as [(pk & _ & _ & _ & ->)|(pk & _ & _ & -> & [?|Hp])]; simpl.
    + by rewrite lookup_insert_ne.
    + done.
    + exfalso. apply (Hp k). simpl. by rewrite lookup_insert_ne.
  - intros k Hk _. apply Model_save_Raise in Hs as (-> & _). simpl.
    by rewrite lookup_insert_ne.
Qed.


(** X9.  Under a clock that does not go back, a record created without an
    explicit [inserted] has [inserted] at or before [updated], and every
    later save keeps it so. *)
Theorem inserted_before_updated m kwargs w inst w' :
  m ∈ models →
  kwargs !! "inserted" = None →
  (∀ i j : nat, (i ≤ j)%nat → clock w i ≤ clock w j) →
  create m kwargs w = (Ok inst, w') →
  ∃ (i : nat) tu,
    (i < ticks w')%nat ∧
    _data inst !! "inserted" = Some (VDateTime (clock w i)) ∧
    _data inst !! "updated" = Some (VDateTime tu) ∧
    clock w i ≤ tu ∧
    ∀ fi self2 w2 r self2' w2',
      clock w2 = clock w → (i ≤ ticks w2)%nat →
      _data self2 !! "inserted" = _data inst !! "inserted" →
      save m fi self2 w2 = (r, self2', w2') →
      ∃ tu', _data self2' !! "inserted" = Some (VDateTime (clock w i)) ∧
             _data self2' !! "updated" = Some (VDateTime tu') ∧
             clock w i ≤ tu'.
Proof.
  intros Hm Hins Hmono Hc.
  apply create_Ok in Hc as (d & w1 & pk & Hd & -> & _ & _ & Hclk & Htk).
  destruct (default_dict_models _ _ _ _ Hm Hd) as (Hc1 & Ht1 & _ & _ & Hdi & _).
  assert (Hi : <["id":=VInt pk]> (<["updated":=VDateTime (clock w1 (ticks w1))]> (kwargs ∪ d))
               !! "inserted" = Some (VDateTime (clock w (ticks w)))).
  { rewrite !lookup_insert_ne by done. by rewrite lookup_union_r. }
  exists (ticks w), (clock w1 (ticks w1)). simpl.
  split; [lia|]. split; [done|].
  split; [rewrite lookup_insert_ne by done; apply lookup_insert_eq|].
  split; [rewrite Hc1, Ht1; apply Hmono; lia|].
  intros fi self2 w2 r self2' w2' Hc2 Ht2 Heq Hs.
  exists (clock w2 (ticks w2)). rewrite save_unfold in Hs.
  assert (Hmem : _data self2' !! "inserted" = _data self2 !! "inserted" ∧
               _data self2' !! "updated" = Some (VDateTime (clock w2 (ticks w2)))).
  { destruct r as [rows|e].
    - apply Model_save_Ok in Hs as [(? & _ & _ & _ & ->)|(? & _ & _ & -> & _)]; simpl;
        rewrite ?lookup_insert_ne by done; by rewrite lookup_insert_eq.
    - apply Model_save_Raise in Hs as (-> & _). simpl.
      rewrite lookup_insert_ne by done. by rewrite lookup_insert_eq. }
  destruct Hmem as [Hd1 Hd2]. split_and!; [by rewrite Hd1, Heq | done |].
  rewrite Hc2. by apply Hmono.
Qed.

(** X14.  No write breaks uniqueness: if every field declared
    [unique=True] holds distinct non-null values in its table, it still
    does after any save or create, successful or not. *)
Theorem writes_keep_unique m w :
  m ∈ models → unique_ok (tables w) →
  (∀ fi self r self' w',
     save m fi self w = (r, self', w') → unique_ok (tables w')) ∧
  (∀ kwargs r w', create m kwargs w = (r, w') → unique_ok (tables w')).
Proof.
  intros Hm Hok. split.
  - intros. by eapply save_keeps_unique.
  - intros. by eapply create_keeps_unique.
Qed.

(** X15.  No write breaks referential integrity: if every stored foreign
    key names an existing row of the table it refers to, it still does
    after any save or create, successful or not. *)
Theorem writes_keep_references m w :
  m ∈ models → references_ok (tables w) →
  (∀ fi self r self' w',
     save m fi self w = (r, self', w') → references_ok (tables w')) ∧
  (∀ kwargs r w', create m kwargs w = (r, w') → references_ok (tables w')).
Proof.
  intros Hm Hok. split.
  - intros. by eapply save_keeps_references.
  - intros. by eapply create_keeps_references.
Qed.

Lemma unique_ok_empty : unique_ok ∅.
Proof. intros m f _ _ _ k1 k2 r1 r2 v H1. unfold table_in in H1. by rewrite lookup_empty in H1. Qed.

Lemma references_ok_empty : references_ok ∅.
Proof. intros m f rel to pk r k _ _ _ H1. unfold table_in in H1. by rewrite lookup_empty in H1. Qed.

(** X19.  Every foreign key of [model.py] is required ([null=False]) and
    names, as its [to_field], the primary-key column of a model declared
    earlier in the file; the references between the tables have no
    cycle. *)
Theorem foreign_keys_declared (i : nat) m f rel to :
  models !! i = Some m → f ∈ fields m →
  f_type f = ForeignKeyField rel to →
  ∃ (j : nat) parent,
    (j < i)%nat ∧ models !! j = Some parent ∧
    db_table parent = rel ∧ pk_column parent = to ∧
    f_null f = false.
Proof.
  intros Hi Hf Ht.
  destruct i as [|[|[|[|[|[|[|[|[|i]]]]]]]]]; simpl in Hi; try done;
    injection Hi as <-; simpl in Hf;
    repeat (apply elem_of_cons in Hf as [->|Hf]);
    try (by apply elem_of_nil in Hf);
    try discriminate Ht; simpl in Ht; injection Ht as <- <-;
    first
      [ by (exists 0%nat; eexists; split_and!; [lia|reflexivity..])
      | by (exists 1%nat; eexists; split_and!; [lia|reflexivity..])
      | by (exists 2%nat; eexists; split_and!; [lia|reflexivity..])
      | by (exists 3%nat; eexists; split_and!; [lia|reflexivity..])
      | by (exists 4%nat; eexists; split_and!; [lia|reflexivity..])
      | by (exists 5%nat; eexists; split_and!; [lia|reflexivity..])
      | by (exists 6%nat; eexists; split_and!; [lia|reflexivity..])
      | by (exists 7%nat; eexists; split_and!; [lia|reflexivity..]) ].
Qed.

(** *** Instances *)

(** X2, witness. *)
Lemma python_value_same_code_witness :
  ("NEW" ∈ enum_names BatchStatusField) ∧
  ("PENDING" ∈ enum_names BatchStatusField) ∧
  (python_value BatchStatusField (VText "NEW")
     = python_value BatchStatusField (VText "PENDING") ↔
   declared_code (enum_body BatchStatusField) "NEW"
     = declared_code (enum_body BatchStatusField) "PENDING").
Proof.
  assert (Ha : "NEW" ∈ enum_names BatchStatusField)
    by (unfold enum_names; simpl; repeat constructor).
  assert (Hb : "PENDING" ∈ enum_names BatchStatusField)
    by (unfold enum_names; simpl; repeat constructor).
  split; [exact Ha|]. split; [exact Hb|].
  exact (python_value_same_code BatchStatusField "NEW" "PENDING" Ha Hb).
Defined.

(** X3, witness. *)
Lemma python_value_member_witness :
  let m := Member "AccountTypeField" "LOAN" 70 in
  NoDup (enum_names AccountTypeField) ∧
  python_value AccountTypeField (VText "BUSINESS_LOAN") = Ok (VMember m) ∧
  m ∈ enum_members AccountTypeField ∧
  declared_code (enum_body AccountTypeField) "BUSINESS_LOAN" = Some 70 ∧
  python_value AccountTypeField (VText "LOAN") = Ok (VMember m).
Proof.
  intros m.
  assert (Hnd : NoDup (enum_names AccountTypeField))
    by (apply (bool_decide_unpack _); vm_compute; exact I).
  assert (Hp : python_value AccountTypeField (VText "BUSINESS_LOAN") = Ok (VMember m))
    by (vm_compute; reflexivity).
  split; [exact Hnd|]. split; [exact Hp|].
  exact (python_value_member AccountTypeField "BUSINESS_LOAN" m Hnd Hp).
Defined.


(** X8, witness. *)
Lemma save_frame_witness :
  let out := save Client false acme_loaded world_later in
  out = (Ok 1, out.1.2, out.2) ∧
  (∀ name, name ≠ "updated" → name ≠ "id" →
           _data out.1.2 !! name = _data acme_loaded !! name) ∧
  (∀ k, _data acme_loaded !! "id" = Some (VInt k) → false = false →
        _data out.1.2 !! "id" = Some (VInt k)) ∧
  clock out.2 = clock world_later ∧ ticks out.2 = 1%nat.
Proof.
  intros out.
  assert (Hs : out = (Ok 1, out.1.2, out.2)) by (vm_compute; reflexivity).
  split; [exact Hs|].
  exact (save_frame Client false acme_loaded world_later _ out.1.2 out.2 Hs).
Defined.

Lemma world0_clock_monotone (i j : nat) : (i ≤ j)%nat → clock world0 i ≤ clock world0 j.
Proof. simpl. lia. Qed.

(** X9, witness. *)
Lemma inserted_before_updated_witness :
  let out := create Client acme world0 in
  Client ∈ models ∧
  acme !! "inserted" = None ∧
  (∀ i j : nat, (i ≤ j)%nat → clock world0 i ≤ clock world0 j) ∧
  out = (Ok (returned out.1), out.2) ∧
  ∃ (i : nat) tu,
    (i < ticks out.2)%nat ∧
    _data (returned out.1) !! "inserted" = Some (VDateTime (clock world0 i)) ∧
    _data (returned out.1) !! "updated" = Some (VDateTime tu) ∧
    clock world0 i ≤ tu.
Proof.
  intros out.
  assert (Hm : Client ∈ models) by (unfold models; repeat constructor).
  assert (Hi : acme !! "inserted" = None) by (vm_compute; reflexivity).
  assert (Hc : out = (Ok (returned out.1), out.2)) by (vm_compute; reflexivity).
  split; [exact Hm|]. split; [exact Hi|]. split; [exact world0_clock_monotone|].
  split; [exact Hc|].
  destruct (inserted_before_updated Client acme world0 (returned out.1) out.2
              Hm Hi world0_clock_monotone Hc) as (i & tu & H1 & H2 & H3 & H4 & _).
  exists i, tu. split; [exact H1|]. split; [exact H2|]. split; [exact H3 | exact H4].
Defined.

(** X10, witness. *)
Lemma create_requires_field_witness :
  let title := Field "title" CharField false true None in
  Client ∈ models ∧ title ∈ fields Client ∧
  ((∅ : gmap string value) !! "title" = None ∨
   (∅ : gmap string value) !! "title" = Some VNone) ∧
  ∃ e w', create Client ∅ world0 = (Raise e, w') ∧ tables w' = tables world0.
Proof.
  intros title.
  assert (Hm : Client ∈ models) by (unfold models; repeat constructor).
  assert (Hf : title ∈ fields Client) by (simpl; repeat constructor).
  assert (Hk : (∅ : gmap string value) !! f_name title = None ∨
               (∅ : gmap string value) !! f_name title = Some VNone)
    by (left; reflexivity).
  split; [exact Hm|]. split; [exact Hf|]. split; [exact Hk|].
  exact (create_requires_field Client title ∅ world0 Hm Hf eq_refl eq_refl Hk).
Defined.

(** X11, witness. *)
Lemma create_requires_parent_witness :
  let batch := Field "event_batch_id" (ForeignKeyField "batches" "event_batch_id")
                     false false None in
  Event ∈ models ∧ batch ∈ fields Event ∧
  an_event !! "event_batch_id" = Some (VInt 7) ∧
  table_of world0 "batches" !! 7 = None ∧
  ∃ e w', create Event an_event world0 = (Raise e, w') ∧ tables w' = tables world0.
Proof.
  intros batch.
  assert (Hm : Event ∈ models) by (unfold models; repeat constructor).
  assert (Hf : batch ∈ fields Event) by (simpl; repeat constructor).
  assert (Hk : an_event !! f_name batch = Some (VInt 7)) by (vm_compute; reflexivity).
  assert (Hp : table_of world0 "batches" !! 7 = None) by (vm_compute; reflexivity).
  split; [exact Hm|]. split; [exact Hf|]. split; [exact Hk|]. split; [exact Hp|].
  exact (create_requires_parent Event batch "batches" "event_batch_id" 7 an_event
           world0 Hm Hf eq_refl Hk Hp).
Defined.

(** X12, witness. *)
Lemma create_duplicate_title_witness :
  acme !! "title" = Some (VText "Acme Bank") ∧
  acme !! "id" = None ∧
  table_of world_later (db_table Client) !! 1 = Some acme_row ∧
  acme_row !! "title" = Some (VText "Acme Bank") ∧
  ∃ what w', create Client acme world_later = (Raise (IntegrityError what), w') ∧
             tables w' = tables world_later.
Proof.
  assert (Ht : acme !! "title" = Some (VText "Acme Bank")) by (vm_compute; reflexivity).
  assert (Hi : acme !! "id" = None) by (vm_compute; reflexivity).
  assert (Hk : table_of world_later (db_table Client) !! 1 = Some acme_row)
    by (vm_compute; reflexivity).
  assert (Hr : acme_row !! "title" = Some (VText "Acme Bank")) by (vm_compute; reflexivity).
  split; [exact Ht|]. split; [exact Hi|]. split; [exact Hk|]. split; [exact Hr|].
  exact (create_duplicate_title Client acme world_later "Acme Bank" 1 acme_row
           (or_introl eq_refl) Ht Hi Hk Hr).
Defined.

(** X13, witness. *)
Lemma undeclared_name_stored_not_reloaded_witness :
  let status := Field "status" (EnumField StatusField) false false
                      (Some (DefaultValue (VText "PENDING"))) in
  let out := create Client acme_archived world0 in
  Client ∈ models ∧ status ∈ fields Client ∧
  acme_archived !! "status" = Some (VText "ARCHIVED") ∧
  ("ARCHIVED" ∉ enum_names StatusField) ∧
  out = (Ok (returned out.1), out.2) ∧
  ∃ pk r key,
    _data (returned out.1) !! "id" = Some (VInt pk) ∧
    table_of out.2 (db_table Client) !! pk = Some r ∧
    r !! "status" = Some (VText "ARCHIVED") ∧
    get Client pk out.2 = Raise (KeyError key).
Proof.
  intros status out.
  assert (Hm : Client ∈ models) by (unfold models; repeat constructor).
  assert (Hf : status ∈ fields Client) by (simpl; repeat constructor).
  assert (Hk : acme_archived !! f_name status = Some (VText "ARCHIVED"))
    by (vm_compute; reflexivity).
  assert (Hs : "ARCHIVED" ∉ enum_names StatusField)
    by (apply (bool_decide_unpack _); vm_compute; exact I).
  assert (Hc : out = (Ok (returned out.1), out.2)) by (vm_compute; reflexivity).
  split; [exact Hm|]. split; [exact Hf|]. split; [exact Hk|]. split; [exact Hs|].
  split; [exact Hc|].
  exact (undeclared_name_stored_not_reloaded Client status StatusField "ARCHIVED"
           acme_archived world0 (returned out.1) out.2 Hm Hf eq_refl Hk Hs Hc).
Defined.

Lemma world_with_client_unique : unique_ok (tables world_with_client).
Proof.
  eapply (create_keeps_unique Client acme world0);
    [unfold models; repeat constructor | apply unique_ok_empty | apply surjective_pairing].
Qed.

(** X14, witness: a second client created beside a stored one. *)
Lemma writes_keep_unique_witness :
  let out := create Client beta world_with_client in
  Client ∈ models ∧
  unique_ok (tables world_with_client) ∧
  (table_of world_with_client "clients" !! 1) ≫= (.!! "title")
    = Some (VText "Acme Bank") ∧
  out = (Ok (returned out.1), out.2) ∧
  (table_of out.2 "clients" !! 2) ≫= (.!! "title")
    = Some (VText "Beta Bank") ∧
  unique_ok (tables out.2).
Proof.
  intros out.
  assert (Hm : Client ∈ models) by (unfold models; repeat constructor).
  assert (Hc : out = (Ok (returned out.1), out.2)) by (vm_compute; reflexivity).
  split; [exact Hm|]. split; [exact world_with_client_unique|].
  split; [vm_compute; reflexivity|].
  split; [exact Hc|].
  split; [vm_compute; reflexivity|].
  exact (proj2 (writes_keep_unique Client world_with_client Hm world_with_client_unique)
           beta out.1 out.2 (surjective_pairing _)).
Defined.

Lemma world_with_event_type_references : references_ok (tables world_with_event_type).
Proof.
  eapply (create_keeps_references EventType maintain_balance world_with_client);
    [unfold models; repeat constructor | | apply surjective_pairing].
  eapply (create_keeps_references Client acme world0);
    [unfold models; repeat constructor | apply references_ok_empty | apply surjective_pairing].
Qed.

(** X15, witness: a configuration created for a stored client and a stored
    event type. *)
Lemma writes_keep_references_witness :
  let out := create ClientConfig a_config world_with_event_type in
  ClientConfig ∈ models ∧
  references_ok (tables world_with_event_type) ∧
  out = (Ok (returned out.1), out.2) ∧
  (table_of out.2 "client_configs" !! 1) ≫= (.!! "client_id") = Some (VInt 1) ∧
  (table_of out.2 "client_configs" !! 1) ≫= (.!! "event_type_id") = Some (VInt 1) ∧
  references_ok (tables out.2).
Proof.
  intros out.
  assert (Hm : ClientConfig ∈ models) by (unfold models; repeat constructor).
  assert (Hc : out = (Ok (returned out.1), out.2)) by (vm_compute; reflexivity).
  split; [exact Hm|]. split; [exact world_with_event_type_references|].
  split; [exact Hc|].
  split; [vm_compute; reflexivity|]. split; [vm_compute; reflexivity|].
  exact (proj2 (writes_keep_references ClientConfig world_with_event_type Hm
                  world_with_event_type_references)
           a_config out.1 out.2 (surjective_pairing _)).
Defined.

(** X19, witness. *)
Lemma foreign_keys_declared_witness :
  let batch := Field "event_batch_id" (ForeignKeyField "batches" "event_batch_id")
                     false false None in
  models !! 7%nat = Some Event ∧ batch ∈ fields Event ∧
  ∃ (j : nat) parent,
    (j < 7)%nat ∧ models !! j = Some parent ∧
    db_table parent = "batches" ∧ pk_column parent = "event_batch_id" ∧
    f_null batch = false.
Proof.
  intros batch.
  assert (Hf : batch ∈ fields Event) by (simpl; repeat constructor).
  split; [reflexivity|]. split; [exact Hf|].
  exact (foreign_keys_declared 7 Event batch "batches" "event_batch_id"
           eq_refl Hf eq_refl).
Defined.

